(** * Open Australian Legal Corpus Creator: reconciliation, index refresh
      and the NSW Legislation adapter

    A shallow embedding of [src/oalc_creator/creator.py] (the [Creator]
    class) and of [sources/nsw_legislation.py] (the stand-alone NSW
    Legislation adapter), followed by the properties of the specification
    that concern them.

    Conventions.
    - A JSON object read from or written to a [.jsonl] file is a finite map
      from field names to strings ([gmap string string]); a [.jsonl] file is
      the list of its records, in file order.
    - A Python exception is a [None] (or an explicit [Raised] outcome where
      the message matters); [d !! k] is Python's [d[k]], which raises
      [KeyError] exactly when it is [None].
    - Instants and [timedelta]s are integers (microseconds, the resolution
      of [datetime]); every call reads the clock once. *)

From stdpp Require Import gmap strings.
From Equations Require Import Equations.

Open Scope string_scope.
Open Scope list_scope.

(** A record of a [.jsonl] file. *)
Abbreviation Doc := (gmap string string).

(** ** Python primitives *)

Module Py.

(** [sub in s] *)
Fixpoint contains (sub s : string) : bool :=
  String.prefix sub s ||
  match s with
  | EmptyString => false
  | String _ s' => contains sub s'
  end.

(** The scan of [s.replace(old, new)] for a non-empty [old]: [skip] counts
    the characters of a match that are still to be dropped. *)
Fixpoint replace_from (old new s : string) (skip : nat) : string :=
  match s with
  | EmptyString => EmptyString
  | String c s' =>
      match skip with
      | S k => replace_from old new s' k
      | O =>
          if String.prefix old s
          then new +:+ replace_from old new s' (String.length old - 1)
          else String c (replace_from old new s' 0)
      end
  end.

(** [s.replace('', new)] puts [new] before every character and at the
    end. *)
Fixpoint intersperse (new s : string) : string :=
  match s with
  | EmptyString => new
  | String c s' => new +:+ String c (intersperse new s')
  end.

(** [s.replace(old, new)] *)
Definition replace (s old new : string) : string :=
  match old with
  | EmptyString => intersperse new s
  | _ => replace_from old new s 0
  end.

(** The exceptions the adapter distinguishes; [OtherException] stands for
    every other subclass of [Exception] (connection errors, lxml's parser
    errors, [AttributeError]...). *)
Inductive exception :=
| UnicodeDecodeError
| IndexError
| OtherException (name : string).

(** What is iterated by [for x in xs] and how [xs] behaves under [bool()]:
    a sized collection (list, tuple, set, dict or dict view) is falsy
    exactly when it is empty, an iterator or generator object is always
    truthy. *)
Inductive Iterable (A : Type) :=
| Sized (items : list A)
| Iterator (items : list A).
Arguments Sized {A} items.
Arguments Iterator {A} items.

Definition items {A} (xs : Iterable A) : list A :=
  match xs with Sized l | Iterator l => l end.

Definition truthy {A} (xs : Iterable A) : bool :=
  match xs with
  | Sized [] => false
  | Sized (_ :: _) => true
  | Iterator _ => true
  end.

(** [a and b] and [a or b] on Boolean operands that may raise: the right
    operand is evaluated only when the left one does not decide. *)
Definition and_then (a b : option bool) : option bool :=
  x ← a; if x : bool then b else Some false.

Definition or_else (a b : option bool) : option bool :=
  x ← a; if x : bool then Some true else b.

End Py.

(** ** [sources/nsw_legislation.py] *)

Module NswLegislation.
Import Py.

(** What [get(url)] followed by the parsing code of the [with suppress]
    block (lines 36 to 58) comes to for one URL: either an exception, or
    the two values computed from the page, the citation as it stands after
    line 48 (title without its [ No <n>] suffix, cut at [(NSW)], white
    space normalised) and the text extracted by inscriptis. *)
Inductive page :=
| Raises (e : exception)
| Parsed (citation text : string).

(** The remote site: the outcome of fetching and parsing each URL. *)
Definition web := string → page.

(** The files the adapter appends to, and the log of the URLs requested
    with [get]. *)
Record files := Files {
  corpus_jsonl : list Doc;
  downloaded_jsonl : list (string * string);
  requested : list string;
}.

(** Lines 49 to 58: the record built for a parsed page. *)
Definition document (url citation text : string) : Doc :=
  {[ "text" := text;
     "type" := if contains "/act-" url
               then "primary_legislation" else "secondary_legislation";
     "jurisdiction" := "new_south_wales";
     "source" := "nsw_legislation";
     "citation" := citation +:+ " (NSW)";
     "url" := url ]}.

(** [suppress(UnicodeDecodeError, IndexError)] *)
Definition suppressed (e : exception) : bool :=
  match e with
  | UnicodeDecodeError | IndexError => true
  | OtherException _ => false
  end.

(** Line 62 *)
Definition mark_downloaded (url : string) (fs : files) : files :=
  Files (corpus_jsonl fs)
        (downloaded_jsonl fs ++ [("nsw_legislation", url)])
        (requested fs).

(** The [try] block (lines 33 to 62) for one URL: the exception that
    leaves it, if any, and the files as they are then. Appending to the two
    files is taken to succeed, so an exception comes from lines 36 to 58. *)
Definition try_block (w : web) (url : string) (fs : files)
  : option exception * files :=
  let fs := Files (corpus_jsonl fs) (downloaded_jsonl fs)
                  (requested fs ++ [url]) in
  match w url with
  | Parsed citation text =>
      (None, mark_downloaded url
               (Files (corpus_jsonl fs ++ [document url citation text])
                      (downloaded_jsonl fs) (requested fs)))
  | Raises e =>
      if suppressed e then (None, mark_downloaded url fs) else (Some e, fs)
  end.

(** The [try] block is left by an exception at this URL. *)
Definition fails (w : web) (url : string) : bool :=
  match w url with
  | Raises e => negb (suppressed e)
  | Parsed _ _ => false
  end.

(** The URL of the second attempt (line 66). *)
Definition pdf_url (url : string) : string :=
  replace url "/view/whole/html" "/view/whole/pdf".

(** The keys of the record of lines 51 to 58. *)
Definition document_fields : gset string :=
  {[ "text"; "type"; "jurisdiction"; "source"; "citation"; "url" ]}.

(** How a call of [get_document] ends. *)
Inductive outcome :=
| Returned
| Raised (message : string).

(** [get_document(url, lock, recursive)]; the lock is the default
    [nullcontext()]. The message of the exception raised on line 69 is kept,
    its cause ([from e]) is not. *)
Equations get_document (w : web) (url : string) (recursive : bool)
  (fs : files) : outcome * files by wf (if recursive then 0 else 1)%nat lt :=
get_document w url true fs :=
  match try_block w url fs with
  | (None, fs') => (Returned, fs')
  | (Some _, fs') =>
      (Raised ("Error getting document from " +:+ url +:+ "."), fs')
  end;
get_document w url false fs :=
  match try_block w url fs with
  | (None, fs') => (Returned, fs')
  | (Some _, fs') =>
      get_document w (pdf_url url) true fs'
  end.

(** *** [get_searches] and [get_search] *)

(** [_SEARCH_BASES] *)
Definition _SEARCH_BASES : list string :=
  [ "https://legislation.nsw.gov.au/tables/pubactsif";
    "https://legislation.nsw.gov.au/tables/pvtactsif";
    "https://legislation.nsw.gov.au/tables/siif";
    "https://legislation.nsw.gov.au/tables/epiif" ].

(** [get_searches()]; [searches] is what [indices/nsw_legislation/
    searches.jsonl] holds, [None] when the file does not exist. *)
Definition get_searches (searches : option (list string))
  : list (string * string) :=
  (λ search_base, ("nsw_legislation", search_base))
    <$> filter (λ search_base, search_base ∉ default [] searches)
               _SEARCH_BASES.

(** The double quote. *)
Definition quote : Ascii.ascii := Ascii.ascii_of_nat 34.

(** The literal parts of the regular expression of line 26, which reads,
    with ' written for the double quote,
    [<a(?: class='indent')? href='\/view(\/html\/[^']+)'>]. *)
Definition class_indent : string :=
  " class=" +:+ String quote ("indent" +:+ String quote EmptyString).
Definition href_view : string := " href=" +:+ String quote "/view".
Definition anchor_end : string := String quote ">".

(** [s] without the prefix [p], when it starts with it. *)
Fixpoint strip_prefix (p s : string) : option string :=
  match p, s with
  | EmptyString, _ => Some s
  | String a p', String b s' =>
      if Ascii.eqb a b then strip_prefix p' s' else None
  | String _ _, EmptyString => None
  end.

(** The longest prefix of [s] without a double quote, and what follows. *)
Fixpoint span_non_quote (s : string) : string * string :=
  match s with
  | EmptyString => (EmptyString, EmptyString)
  | String c s' =>
      if Ascii.eqb c quote then (EmptyString, s)
      else let '(body, rest) := span_non_quote s' in (String c body, rest)
  end.

(** The expression from [ href=] on, matched at the start of [s]: the group
    and what follows the match. The repetition in the group is greedy, and
    giving characters back cannot help since the next character must be a
    double quote; so the group is [/html/] with the longest run without a
    double quote, which must not be empty and must be followed by a double
    quote and [>]. *)
Definition match_href (s : string) : option (string * string) :=
  s ← strip_prefix href_view s;
  s ← strip_prefix "/html/" s;
  let '(body, rest) := span_non_quote s in
  match body with
  | EmptyString => None
  | _ => rest ← strip_prefix anchor_end rest; Some ("/html/" +:+ body, rest)
  end.

(** The whole expression matched at the start of [s]: the optional group
    is tried first, and left out when the match fails with it. *)
Definition match_anchor (s : string) : option (string * string) :=
  s ← strip_prefix "<a" s;
  match strip_prefix class_indent s ≫= match_href with
  | Some found => Some found
  | None => match_href s
  end.

(** The scan of [re.findall]: matches do not overlap, the search goes on
    where a match ends; [skip] counts the characters of a match that are
    still to be passed. *)
Fixpoint findall_from (s : string) (skip : nat) : list string :=
  match s with
  | EmptyString => []
  | String _ s' =>
      match skip with
      | S k => findall_from s' k
      | O =>
          match match_anchor s with
          | Some (group, rest) =>
              group :: findall_from s'
                         (String.length s - String.length rest - 1)
          | None => findall_from s' 0
          end
      end
  end.

Definition findall (s : string) : list string := findall_from s 0.

(** What the group of the expression can match: [/html/] followed by one or
    more characters other than the double quote. *)
Definition html_path (document_path : string) : Prop :=
  ∃ body, document_path = "/html/" +:+ body
          ∧ body ≠ EmptyString
          ∧ contains (String quote EmptyString) body = false.

(** The two files [get_search] appends to. *)
Record search_files := SearchFiles {
  documents_jsonl : list (string * string);
  searches_jsonl : option (list string);
}.

(** The URL requested on line 26; [today] is the date in New South Wales,
    as [%d/%m/%Y]. *)
Definition search_url (search_base today : string) : string :=
  search_base +:+ "?pit=" +:+ today
    +:+ "&sort=chron&renderas=html&generate=".

(** The URL of a document, from the path found in the table. *)
Definition document_url (document_path : string) : string :=
  "https://www.legislation.nsw.gov.au/view/whole" +:+ document_path.

(** [get_search(search_base, lock)] with the default lock; [site] is the
    text served at a URL, [None] when [get] raises. *)
Definition get_search (site : string → option string) (today : string)
  (search_base : string) (fs : search_files) : option search_files :=
  text ← site (search_url search_base today);
  let documents :=
    (λ document_path, ("nsw_legislation", document_url document_path))
      <$> findall text in
  Some (SearchFiles (documents_jsonl fs ++ documents)
          (Some (default [] (searches_jsonl fs) ++ [search_base]))).

End NswLegislation.

(** ** [src/oalc_creator/creator.py] *)

Module Creator.
Import Py.

(** A refresh interval of a scraper: [True], [False] or a [timedelta]. *)
Inductive refresh_interval :=
| Always              (* [True]: refresh on every run *)
| Never               (* [False]: never refresh *)
| Duration (d : Z).   (* a [timedelta] *)

#[global] Instance refresh_interval_eq_dec : EqDecision refresh_interval.
Proof. solve_decision. Defined.

(** What a call did to the one file it owns, in order. *)
Inductive event (A : Type) :=
| AdapterCalled
| Unlinked
| Saved (content : A).
Arguments AdapterCalled {A}.
Arguments Unlinked {A}.
Arguments Saved {A} content.

Section WithRequest.

(** [Request] of [oalc_creator.data] is not among the sources; the
    creator only hashes and compares requests, so any type with
    decidable equality that can key a set will do. *)
Context {Request : Type} `{Countable Request}.

(** Modelled from the spec: the [Entry] class of [oalc_creator.data],
    a version id, the request that found the entry and source-defined
    metadata. *)
Record Entry := {
  version_id : string;
  request : Request;
  metadata : Doc;
}.

(** Modelled from the spec: the [Document] class of [oalc_creator.data],
    with the seven fields of the data model. *)
Record Document := {
  doc_version_id : string;
  doc_type : string;
  doc_jurisdiction : string;
  doc_source : string;
  doc_citation : string;
  doc_url : string;
  doc_text : string;
}.

(** The fields of a [Document]. *)
Definition Document_fields : gset string :=
  {[ "version_id"; "type"; "jurisdiction"; "source"; "citation"; "url";
     "text" ]}.

(** [attrs.asdict] on a [Document] *)
Definition asdict (doc : Document) : Doc :=
  {[ "version_id" := doc_version_id doc;
     "type" := doc_type doc;
     "jurisdiction" := doc_jurisdiction doc;
     "source" := doc_source doc;
     "citation" := doc_citation doc;
     "url" := doc_url doc;
     "text" := doc_text doc ]}.

(** The part of a [Scraper] the creator uses. The three coroutines are
    given by their results; [None] is a call that produced nothing
    (an exception, or for [get_doc] also a document to skip). *)
Record Scraper := {
  source : string;
  indices_refresh_interval : refresh_interval;
  index_refresh_interval : refresh_interval;
  get_index_reqs : option (gset Request);
  get_index : Request → option (list Entry);
  get_doc : Entry → option Document;
}.

(** *** [Creator.__init__], lines 54 to 57: the choice of scrapers *)

(** The eight classes imported from [oalc_creator.scrapers], each given
    by the instance its constructor returns. *)
Record scrapers_module := {
  FederalCourtOfAustralia : Scraper;
  FederalRegisterOfLegislation : Scraper;
  NswCaselaw : Scraper;
  NswLegislation : Scraper;
  QueenslandLegislation : Scraper;
  SouthAustralianLegislation : Scraper;
  TasmanianLegislation : Scraper;
  WesternAustralianLegislation : Scraper;
}.

(** The items of the [SOURCES] dictionary, in the order of the literal. *)
Definition SOURCES_items (M : scrapers_module) : list (string * Scraper) :=
  [ ("federal_court_of_australia", FederalCourtOfAustralia M);
    ("federal_register_of_legislation", FederalRegisterOfLegislation M);
    ("nsw_caselaw", NswCaselaw M);
    ("nsw_legislation", NswLegislation M);
    ("queensland_legislation", QueenslandLegislation M);
    ("south_australian_legislation", SouthAustralianLegislation M);
    ("western_australian_legislation", WesternAustralianLegislation M);
    ("tasmanian_legislation", TasmanianLegislation M) ].

Definition SOURCES (M : scrapers_module) : gmap string Scraper :=
  list_to_map (SOURCES_items M).

(** [SOURCES.keys()] *)
Definition SOURCES_keys (M : scrapers_module) : list string :=
  (SOURCES_items M).*1.

(** [SOURCES[source]() if not isinstance(source, Scraper) else source];
    a name that is not a key raises [KeyError]. *)
Definition instantiate (M : scrapers_module) (source : string + Scraper)
  : option Scraper :=
  match source with
  | inl name => SOURCES M !! name
  | inr scraper => Some scraper
  end.

(** Lines 55 to 57: [self.scrapers]. The set built on line 56 is
    iterated in an unspecified order on line 57; the model keeps the
    order of [sources], and a later scraper replaces an earlier one of
    the same [source]. *)
Definition init_scrapers (M : scrapers_module)
  (sources : option (Iterable (string + Scraper)))
  : option (gmap string Scraper) :=
  let sources :=
    match sources with
    | Some xs => if truthy xs then items xs else inl <$> SOURCES_keys M
    | None => inl <$> SOURCES_keys M
    end in
  scrapers ← mapM (instantiate M) sources;
  Some (foldl (λ d scraper, <[source scraper := scraper]> d) ∅ scrapers).

(** *** [Creator._get_index_reqs] *)

(** The file [indices/<source>.json]: its modification time and the
    requests saved in it. *)
Record indices_file := {
  mtime : Z;
  saved_reqs : list Request;
}.

(** The condition of line 119, for a file that exists. *)
Definition outdated (interval : refresh_interval) (now : Z)
  (f : indices_file) : bool :=
  match interval with
  | Always => true
  | Never => false
  | Duration d => bool_decide (d < now - mtime f)%Z
  end.

(** The result (if the adapter did not fail), the file afterwards and
    what was done. *)
Definition _get_index_reqs (now : Z) (scraper : Scraper)
  (file : option indices_file)
  : option (gset Request) * option indices_file
    * list (event (list Request)) :=
  let generate :=
    match get_index_reqs scraper with
    | Some reqs =>
        (Some reqs,
         Some {| mtime := now; saved_reqs := elements reqs |},
         [AdapterCalled; Saved (elements reqs)])
    | None => (None, file, [AdapterCalled])
    end in
  match file with
  | None => generate
  | Some f =>
      if outdated (indices_refresh_interval scraper) now f
      then generate
      else (Some (list_to_set (saved_reqs f)), file, [])
  end.

(** *** [Creator._get_unindexed_index_reqs] *)

(** A line of [index/<source>.jsonl]: a request, the entries found with
    it and the time they were retrieved. *)
Definition index_line : Type := Request * list Entry * Z.

Definition line_req (l : index_line) : Request := l.1.1.
Definition when_indexed (l : index_line) : Z := l.2.

(** The second conjunct of the filter on lines 160 to 164. *)
Definition fresh (interval : refresh_interval) (now : Z) (l : index_line)
  : bool :=
  match interval with
  | Never => true
  | Duration d => bool_decide (now - when_indexed l ≤ d)%Z
  | Always => false (* not reached: line 147 returns first *)
  end.

(** The filter of lines 159 to 164. *)
Definition still_indexed (interval : refresh_interval) (now : Z)
  (index_reqs : gset Request) (index : list index_line)
  : list index_line :=
  filter (λ l, line_req l ∈ index_reqs ∧ fresh interval now l = true)
         index.

(** The result, the file afterwards and what was done to it. *)
Definition _get_unindexed_index_reqs (now : Z) (scraper : Scraper)
  (index_reqs : gset Request) (file : option (list index_line))
  : gset Request * option (list index_line)
    * list (event (list index_line)) :=
  match file with
  | None => (index_reqs, None, [])
  | Some loaded =>
      match index_refresh_interval scraper with
      | Always => (index_reqs, None, [Unlinked])
      | interval =>
          let index := still_indexed interval now index_reqs loaded in
          let unindexed := index_reqs ∖ list_to_set (line_req <$> index) in
          if decide (length index ≠ length loaded)
          then (unindexed, Some index, [Saved index])
          else (unindexed, Some loaded, [])
      end
  end.

(** *** [Creator.create], lines 225 to 277

    Lines 189 to 224 (discovery and indexing) write index files only;
    [index_files] is the content of [index/<source>.jsonl], source by
    source, when they are done. *)

(** Line 226; [orjsonl.load] raises for a source without index file. *)
Definition load_indices (scrapers : gmap string Scraper)
  (index_files : gmap string (list index_line))
  : option (list (Scraper * list index_line)) :=
  mapM (λ scraper, index ← index_files !! source scraper;
                   Some (scraper, index))
       (map_to_list scrapers).*2.

(** The three [for] clauses of lines 236 to 238. *)
Definition discovered (indices : list (Scraper * list index_line))
  : list (Scraper * Entry) :=
  '(scraper, index) ← indices;
  '(_, entries, _) ← index;
  entry ← entries;
  [(scraper, entry)].

(** Lines 230 to 239: the dictionary [entries]; for a version id found
    more than once the last pair stays. *)
Definition flatten (indices : list (Scraper * list index_line))
  : gmap string (Scraper * Entry) :=
  foldl (λ entries se, <[version_id se.2 := se]> entries) ∅
        (discovered indices).

(** A record with the two fields that line 246 may read. *)
Definition readable (doc : Doc) : Prop :=
  is_Some (doc !! "version_id") ∧ is_Some (doc !! "source").

(** The temporary file and [corpus_version_ids] during the pass of
    lines 242 to 250. *)
Record pass := Pass {
  tmp_file : list Doc;
  corpus_version_ids : list string;
}.

(** The condition of line 246. *)
Definition keep (entries : gmap string (Scraper * Entry))
  (scrapers : gmap string Scraper) (ids : list string) (doc : Doc)
  : option bool :=
  and_then
    (v ← doc !! "version_id"; Some (bool_decide (v ∉ ids)))
    (or_else
       (v ← doc !! "version_id"; Some (bool_decide (v ∈ dom entries)))
       (s ← doc !! "source"; Some (bool_decide (s ∉ dom scrapers)))).

(** Lines 247 to 250. *)
Definition write (st : pass) (doc : Doc) : option pass :=
  v ← doc !! "version_id";
  Some (Pass (tmp_file st ++ [doc]) (corpus_version_ids st ++ [v])).

(** One turn of the loop of line 245. *)
Definition stream_step (entries : gmap string (Scraper * Entry))
  (scrapers : gmap string Scraper) (st : pass) (doc : Doc)
  : option pass :=
  k ← keep entries scrapers (corpus_version_ids st) doc;
  if k : bool then write st doc else Some st.

(** The loop of lines 245 to 250 over the records of the corpus. *)
Fixpoint rewrite_corpus (entries : gmap string (Scraper * Entry))
  (scrapers : gmap string Scraper) (corpus : list Doc) (st : pass)
  : option pass :=
  match corpus with
  | [] => Some st
  | doc :: rest =>
      st' ← stream_step entries scrapers st doc;
      rewrite_corpus entries scrapers rest st'
  end.

(** Line 258; the order of the dictionary is lost on line 266. *)
Definition missing_entries (entries : gmap string (Scraper * Entry))
  (ids : gset string) : list (Scraper * Entry) :=
  (filter (λ kv, kv.1 ∉ ids) (map_to_list entries)).*2.

(** Lines 271 to 277, for the tasks in their order of completion. *)
Definition append_docs (corpus : list Doc)
  (completed : list (Scraper * Entry)) : list Doc :=
  foldl (λ (f : list Doc) se, match get_doc se.1 se.2 with
                 | Some doc => f ++ [asdict doc]
                 | None => f
                 end)
        corpus completed.

(** A run of lines 225 to 277 that ends without exception, from the
    corpus before to the corpus after. Shuffling (line 266) and the
    order in which the tasks complete (line 272) make [completed] any
    arrangement of the missing entries. *)
Inductive create (scrapers : gmap string Scraper)
  (index_files : gmap string (list index_line)) (corpus : list Doc)
  : list Doc → Prop :=
| create_up_to_date indices st :
    load_indices scrapers index_files = Some indices →
    rewrite_corpus (flatten indices) scrapers corpus (Pass [] [])
      = Some st →
    missing_entries (flatten indices)
                    (list_to_set (corpus_version_ids st)) = [] →
    create scrapers index_files corpus (tmp_file st)
| create_updated indices st completed :
    load_indices scrapers index_files = Some indices →
    rewrite_corpus (flatten indices) scrapers corpus (Pass [] [])
      = Some st →
    missing_entries (flatten indices)
                    (list_to_set (corpus_version_ids st)) ≠ [] →
    completed ≡ₚ missing_entries (flatten indices)
                   (list_to_set (corpus_version_ids st)) →
    create scrapers index_files corpus
           (append_docs (tmp_file st) completed).

(** What line 246 asks of a record besides not repeating a version id: the
    version id is a key of [entries], or the source is no key of
    [scrapers]. *)
Definition retained (entries : gmap string (Scraper * Entry))
  (scrapers : gmap string Scraper) (doc : Doc) : Prop :=
  ∃ v, doc !! "version_id" = Some v
       ∧ (v ∈ dom entries
          ∨ ∃ s, doc !! "source" = Some s ∧ s ∉ dom scrapers).

(** *** [Creator._get_index] and [Creator.create], lines 198 to 223

    The index files [index/<source>.jsonl] are a map from sources to lists
    of lines; a source that is no key has no file. *)

(** [_get_index], called at [now]: the source and the line to be written,
    [None] when the adapter's [get_index] gives nothing. *)
Definition _get_index (now : Z) (scraper : Scraper) (req : Request)
  : option (string * index_line) :=
  entries ← get_index scraper req;
  Some (source scraper, (req, entries, now)).

(** Line 198, for the scrapers zipped with their requests, each with the time
    its call reads the clock: the requests to index, scraper by scraper,
    and the index files as the calls leave them. *)
Fixpoint unindexed_index_reqs (calls : list (Z * Scraper * gset Request))
  (files : gmap string (list index_line))
  : list (Scraper * gset Request) * gmap string (list index_line) :=
  match calls with
  | [] => ([], files)
  | (now, scraper, reqs) :: calls =>
      let '(unindexed, file', _) :=
        _get_unindexed_index_reqs now scraper reqs
          (files !! source scraper) in
      let '(rest, files') :=
        unindexed_index_reqs calls
          (partial_alter (λ _, file') (source scraper) files) in
      ((scraper, unindexed) :: rest, files')
  end.

(** Line 201. *)
Definition index_tasks (unindexed : list (Scraper * gset Request))
  : list (Scraper * Request) :=
  '(scraper, reqs) ← unindexed; req ← elements reqs; [(scraper, req)].

(** Lines 211 to 216: the index file of every source with a task is opened
    for appending, which makes it if it is not there. *)
Definition open_index_files (tasks : list (Scraper * Request))
  (files : gmap string (list index_line)) : gmap string (list index_line) :=
  files ∪ gset_to_gmap [] (list_to_set ((source ∘ fst) <$> tasks)).

(** Lines 219 to 223, for the tasks in their order of completion, each with
    the time at which it completes. A task whose [get_index] gives nothing
    ends the model of the loop: what [alive_as_completed] yields for it is
    not in the sources. *)
Fixpoint write_index_lines (completed : list (Z * Scraper * Request))
  (files : gmap string (list index_line))
  : option (gmap string (list index_line)) :=
  match completed with
  | [] => Some files
  | (now, scraper, req) :: completed =>
      '(name, line) ← _get_index now scraper req;
      write_index_lines completed
        (<[name := default [] (files !! name) ++ [line]]> files)
  end.

(** Lines 198 to 223 for a run in which every request is indexed, from the
    index files before to the index files after. Shuffling (line 204) and
    the order in which the tasks complete make [completed] any arrangement
    of the tasks. *)
Inductive index_phase (calls : list (Z * Scraper * gset Request))
  (files : gmap string (list index_line))
  : gmap string (list index_line) → Prop :=
| index_phase_run completed files' :
    (λ c, (c.1.2, c.2)) <$> completed
      ≡ₚ index_tasks (unindexed_index_reqs calls files).1 →
    write_index_lines completed
      (open_index_files (index_tasks (unindexed_index_reqs calls files).1)
         (unindexed_index_reqs calls files).2) = Some files' →
    index_phase calls files files'.

(** *** [Creator.__init__], lines 77 to 110: the data on disk

    The corpus file, the two directories of index files and
    [versions.json]; [None] is a path that does not exist. The three paths
    are taken to be different and not inside one another, as they are by
    default. [DATA_VERSIONS] of [oalc_creator.metadata] is not among the
    sources and is an argument, with any type of version marks. *)

Context {Version : Type} `{EqDecision Version}.

Record data := Data {
  corpus_data : option (list Doc);
  indices_data : option (gmap string indices_file);
  index_data : option (gmap string (list index_line));
  versions_data : option (gmap string Version);
}.

(** The keys of [data_paths] (lines 85 to 89). *)
Definition data_names : gset string := {[ "corpus"; "indices"; "index" ]}.

(** [os.path.exists(data_paths[name])] *)
Definition data_exists (name : string) (d : data) : bool :=
  if decide (name = "corpus") then bool_decide (is_Some (corpus_data d))
  else if decide (name = "indices")
       then bool_decide (is_Some (indices_data d))
  else if decide (name = "index") then bool_decide (is_Some (index_data d))
  else false.

(** Lines 95 to 99: [shutil.rmtree] or [unlink] on [data_paths[name]]. *)
Definition delete_data (name : string) (d : data) : data :=
  if decide (name = "corpus")
  then Data None (indices_data d) (index_data d) (versions_data d)
  else if decide (name = "indices")
       then Data (corpus_data d) None (index_data d) (versions_data d)
  else if decide (name = "index")
       then Data (corpus_data d) (indices_data d) None (versions_data d)
  else d.

(** The condition of line 94; [DATA_VERSIONS[name]] raises [KeyError] for a
    name it does not have. *)
Definition incompatible (DATA_VERSIONS : gmap string Version)
  (name : string) (version : Version) (d : data) : option bool :=
  and_then (Some (bool_decide (name ∈ data_names)))
    (and_then
       (current ← DATA_VERSIONS !! name;
        Some (bool_decide (version ≠ current)))
       (Some (data_exists name d))).

(** The loop of lines 92 to 99 over [versions.items()]. When it raises,
    what it has deleted before is not kept track of. *)
Fixpoint delete_incompatible (DATA_VERSIONS : gmap string Version)
  (versions : list (string * Version)) (d : data) : option data :=
  match versions with
  | [] => Some d
  | (name, version) :: rest =>
      stale ← incompatible DATA_VERSIONS name version d;
      delete_incompatible DATA_VERSIONS rest
        (if stale : bool then delete_data name d else d)
  end.

(** [name] is listed in [versions] with a version other than the one of
    [DATA_VERSIONS]. *)
Definition listed_stale (DATA_VERSIONS : gmap string Version)
  (versions : list (string * Version)) (name : string) : Prop :=
  Exists (λ nv, nv.1 = name ∧ DATA_VERSIONS !! name ≠ Some nv.2) versions.

(** Lines 77 to 110: incompatible data are deleted, the two directories
    and the corpus file are made if they are not there, and the versions
    file is written. *)
Definition init_data (DATA_VERSIONS : gmap string Version) (d : data)
  : option data :=
  d' ← match versions_data d with
       | Some versions =>
           delete_incompatible DATA_VERSIONS (map_to_list versions) d
       | None => Some d
       end;
  Some (Data (Some (default [] (corpus_data d')))
             (Some (default ∅ (indices_data d')))
             (Some (default ∅ (index_data d')))
             (Some DATA_VERSIONS)).

End WithRequest.

Arguments Entry Request : clear implicits.
Arguments index_line Request : clear implicits.
Arguments Scraper Request {_ _}.
Arguments scrapers_module Request {_ _}.
Arguments indices_file Request : clear implicits.
Arguments pass : clear implicits.
Arguments data Request Version : clear implicits.

End Creator.

(** ** Sample runs *)

Module Examples.
Import Py.

(** *** The adapter *)
Section adapter.
Import NswLegislation.

(** The two documents named in the comment of line 34. *)
Definition epi_url : string :=
  "https://legislation.nsw.gov.au/view/whole/html/inforce/current/epi-2018-0764".
Definition act_url : string :=
  "https://legislation.nsw.gov.au/view/whole/html/inforce/current/act-1900-040".

Definition no_files : files := Files [] [] [].

(** A site that serves PDF files only: decoding as UTF-8 fails. *)
Definition pdf_site : web := λ _, Raises UnicodeDecodeError.

(** A site that cannot be reached. *)
Definition down_site : web :=
  λ _, Raises (OtherException "ConnectionError").

(** A site with the HTML rendering of an act at every URL. *)
Definition html_site : web :=
  λ _, Parsed "Crimes Act 1900" "An Act to consolidate the Statutes.".

(** A site with HTML renderings of acts only: every other URL, the PDF
    renderings among them, is not found. *)
Definition acts_site : web :=
  λ url, if contains "/view/whole/html/inforce/current/act-" url
         then Parsed "Crimes Act 1900" "An Act to consolidate the Statutes."
         else Raises (OtherException "HTTPError").

(** A site whose documents exist as PDF files only: the HTML rendering is
    not found and the PDF rendering does not decode. *)
Definition pdf_only_site : web :=
  λ url, if contains "/view/whole/pdf" url
         then Raises UnicodeDecodeError
         else Raises (OtherException "HTTPError").

(** A row of a table of legislation in force. *)
Definition anchor (indent : bool) (path title : string) : string :=
  "<td><a" +:+ (if indent then class_indent else EmptyString)
    +:+ href_view +:+ path +:+ anchor_end +:+ title +:+ "</a></td>".

(** A table with an act, an amending act below it, a link that is not to a
    document and a link to a PDF. *)
Definition table : string :=
  anchor false "/html/inforce/current/act-1900-040" "Crimes Act 1900"
    +:+ anchor true "/html/inforce/current/act-2018-033"
          "Crimes Amendment Act 2018"
    +:+ anchor false "/pdf/inforce/current/act-1900-040" "PDF"
    +:+ "<a href=" +:+ String quote ("/about" +:+ anchor_end)
    +:+ "About</a>".

(** A site that serves the table at every URL. *)
Definition tables_site : string → option string := λ _, Some table.

Definition no_search_files : search_files := SearchFiles [] None.
End adapter.

(** *** The creator, with strings for requests *)
Section creator.
Import Creator.

Definition entry (v : string) : Entry string :=
  {| version_id := v; request := "search"; metadata := ∅ |}.

Definition fetched (name : string) (e : Entry string) : Document :=
  {| doc_version_id := version_id e;
     doc_type := "decision";
     doc_jurisdiction := "commonwealth";
     doc_source := name;
     doc_citation := "Citation of " +:+ version_id e;
     doc_url := "https://example.org/" +:+ version_id e;
     doc_text := "Text of " +:+ version_id e |}.

(** A scraper that finds the versions [v1] and [v2] with its one
    request. *)
Definition scraper (name : string) (interval : refresh_interval)
  : Scraper string :=
  {| source := name;
     indices_refresh_interval := interval;
     index_refresh_interval := interval;
     get_index_reqs := Some {[ "search" ]};
     get_index := λ _, Some [entry "v1"; entry "v2"];
     get_doc := λ e, Some (fetched name e) |}.

Definition classes : scrapers_module string :=
  {| FederalCourtOfAustralia := scraper "federal_court_of_australia" Never;
     FederalRegisterOfLegislation :=
       scraper "federal_register_of_legislation" Never;
     NswCaselaw := scraper "nsw_caselaw" Never;
     NswLegislation := scraper "nsw_legislation" Never;
     QueenslandLegislation := scraper "queensland_legislation" Never;
     SouthAustralianLegislation :=
       scraper "south_australian_legislation" Never;
     TasmanianLegislation := scraper "tasmanian_legislation" Never;
     WesternAustralianLegislation :=
       scraper "western_australian_legislation" Never |}.

(** A corpus record with the two fields the pass reads. *)
Definition record (v name : string) : Doc :=
  {[ "version_id" := v; "source" := name ]}.

(** A run over the one source [current]. *)
Definition current : Scraper string := scraper "current" (Duration 10).
Definition scrapers : gmap string (Scraper string) :=
  {[ "current" := current ]}.
Definition index_files : gmap string (list (index_line string)) :=
  {[ "current" := [("search", [entry "v1"; entry "v2"], 95%Z)] ]}.

Definition indices : list (Scraper string * list (index_line string)) :=
  [(current, [("search", [entry "v1"; entry "v2"], 95%Z)])].

(** A corpus with a repeated record, a record that is no longer found
    and a record of another source. *)
Definition corpus : list Doc :=
  [ record "v1" "current"; record "v1" "current";
    record "v9" "current"; record "v7" "legacy" ].

(** The same corpus after the run. *)
Definition corpus_after : list Doc :=
  [ record "v1" "current"; record "v7" "legacy";
    asdict (fetched "current" (entry "v2")) ].

(** A corpus in which a record of another source occurs twice. *)
Definition legacy_corpus : list Doc :=
  [ record "v7" "legacy"; record "v7" "legacy" ].

(** An index line retrieved long ago. *)
Definition old_line : index_line string := ("search", [entry "v1"], 0%Z).
Definition new_line : index_line string := ("search", [entry "v1"], 95%Z).

(** A corpus in which a record has no version id. *)
Definition broken_corpus : list Doc :=
  [ record "v1" "current"; {[ "source" := "current" ]};
    record "v7" "legacy" ].

(** The corpus that the pass leaves of [corpus]. *)
Definition corpus_kept : pass :=
  Pass [record "v1" "current"; record "v7" "legacy"] ["v1"; "v7"].

(** The indexing phase for [current], with a second discovery request that
    has no line yet; it is indexed at time 101. *)
Definition calls : list (Z * Scraper string * gset string) :=
  [(100%Z, current, {[ "search"; "recent" ]})].
Definition recent_line : index_line string :=
  ("recent", [entry "v1"; entry "v2"], 101%Z).
Definition index_files_after : gmap string (list (index_line string)) :=
  {[ "current" := [("search", [entry "v1"; entry "v2"], 95%Z);
                   recent_line] ]}.

(** A scraper whose source lists nothing to search. *)
Definition idle : Scraper string :=
  {| source := "idle";
     indices_refresh_interval := Never;
     index_refresh_interval := Never;
     get_index_reqs := Some ∅;
     get_index := λ _, Some [];
     get_doc := λ _, None |}.
Definition idle_calls : list (Z * Scraper string * gset string) :=
  [(100%Z, current, {[ "search" ]}); (100%Z, idle, ∅)].
Definition idle_scrapers : gmap string (Scraper string) :=
  {[ "current" := current; "idle" := idle ]}.

(** The data versions of a creator, and the data left by a creator whose
    corpus had another version. *)
Definition data_versions : gmap string nat :=
  {[ "corpus" := 4%nat; "indices" := 2%nat; "index" := 3%nat ]}.
Definition old_data : data string nat :=
  Data (Some corpus) (Some ∅) (Some index_files)
       (Some {[ "corpus" := 3%nat; "indices" := 2%nat; "index" := 3%nat ]}).
Definition new_data : data string nat :=
  Data (Some []) (Some ∅) (Some index_files) (Some data_versions).
End creator.

End Examples.

(** * Properties *)

(** ** The NSW Legislation adapter *)

Section nsw_legislation.
Import Py NswLegislation.

Implicit Types (w : web) (url : string) (fs : files).

Lemma try_block_requested w url fs :
  requested (try_block w url fs).2 = requested fs ++ [url].
Proof.
  unfold try_block. destruct (w url) as [e|c t]; [destruct (suppressed e)|];
    reflexivity.
Qed.

Lemma try_block_fails w url fs :
  fails w url = true →
  ∃ e, try_block w url fs
       = (Some e, Files (corpus_jsonl fs) (downloaded_jsonl fs)
                        (requested fs ++ [url])).
Proof.
  unfold fails, try_block. destruct (w url) as [e|c t]; [|done].
  destruct (suppressed e); [done|]. intros _. by exists e.
Qed.

Lemma try_block_completes w url fs :
  fails w url = false → (try_block w url fs).1 = None.
Proof.
  unfold fails, try_block. destruct (w url) as [e|c t]; [|done].
  by destruct (suppressed e).
Qed.

Lemma try_block_corpus w url fs :
  ∃ new, corpus_jsonl (try_block w url fs).2 = corpus_jsonl fs ++ new
         ∧ Forall (λ d : Doc, dom d = document_fields) new.
Proof.
  unfold try_block. destruct (w url) as [e|c t].
  - exists []. rewrite app_nil_r. split; [by destruct (suppressed e)|done].
  - exists [document url c t]. split; [done|].
    apply Forall_singleton. unfold document, document_fields.
    rewrite !dom_insert_L, dom_singleton_L. set_solver.
Qed.

(** C10. When fetching or parsing raises [UnicodeDecodeError] or
    [IndexError], [get_document] returns normally: the corpus file is as
    before, the pair [("nsw_legislation", url)] is appended to the index of
    downloaded documents, and the only URL requested is [url] itself (the
    PDF rendering is not tried). *)
Theorem get_document_suppressed w url recursive fs e :
  w url = Raises e →
  e = UnicodeDecodeError ∨ e = IndexError →
  get_document w url recursive fs
  = (Returned,
     Files (corpus_jsonl fs)
           (downloaded_jsonl fs ++ [("nsw_legislation", url)])
           (requested fs ++ [url])).
Proof.
  intros Hw He.
  assert (try_block w url fs
          = (None, Files (corpus_jsonl fs)
                         (downloaded_jsonl fs ++ [("nsw_legislation", url)])
                         (requested fs ++ [url]))) as Htry.
  { unfold try_block. rewrite Hw. by destruct He as [-> | ->]. }
  destruct recursive; simp get_document; by rewrite Htry.
Qed.

(** C7, as the code has it. When the first attempt is left by an exception
    other than [UnicodeDecodeError] and [IndexError], exactly one further
    attempt is made, at the URL with [/view/whole/html] replaced by
    [/view/whole/pdf]; if that attempt is left by such an exception too,
    an exception naming the PDF URL is raised and nothing is written;
    otherwise the call returns. In both cases the URLs requested are the
    two, in this order. *)
Theorem get_document_fallback w url fs :
  fails w url = true →
  requested (get_document w url false fs).2
    = requested fs ++ [url; pdf_url url]
  ∧ (get_document w url false fs).1
    = (if fails w (pdf_url url)
       then Raised ("Error getting document from " +:+ pdf_url url +:+ ".")
       else Returned)
  ∧ (fails w (pdf_url url) = true →
     corpus_jsonl (get_document w url false fs).2 = corpus_jsonl fs
     ∧ downloaded_jsonl (get_document w url false fs).2
       = downloaded_jsonl fs).
Proof.
  intros Hfail. simp get_document.
  destruct (try_block_fails w url fs Hfail) as [e ->].
  set (fs1 := Files _ _ _). simp get_document.
  pose proof (try_block_requested w (pdf_url url) fs1) as Hreq.
  destruct (fails w (pdf_url url)) eqn:Hpdf.
  - destruct (try_block_fails w (pdf_url url) fs1 Hpdf) as [e' Htry].
    rewrite Htry in *. simpl. by rewrite <- app_assoc.
  - pose proof (try_block_completes w (pdf_url url) fs1 Hpdf) as Hnone.
    destruct (try_block w (pdf_url url) fs1) as [[e'|] fs2]; [done|].
    simpl in *. rewrite Hreq, <- app_assoc. done.
Qed.

End nsw_legislation.

(** ** The index files of a source *)

Section index_files.
Import Py Creator.
Context {Request : Type} `{Countable Request}.

Implicit Types (scraper : Scraper Request).
Implicit Types (index_reqs : gset Request).
Implicit Types (loaded : list (index_line Request)).

(** A refreshed request file reads back as the set that was saved. *)
Lemma saved_reqs_reload (reqs : gset Request) :
  list_to_set (elements reqs) = reqs.
Proof.
  apply set_eq. intros x. by rewrite elem_of_list_to_set, elem_of_elements.
Qed.

(** C6. [_get_index_reqs] calls the adapter exactly when the request file
    is absent, or the interval is [Always], or it is a duration smaller
    than the age of the file. It then saves what the adapter returned in
    place of what the file held and returns it; in every other case it
    returns the set of the requests in the file, and neither calls the
    adapter nor writes. *)
Theorem get_index_reqs_policy now scraper file :
  let due :=
    file = None
    ∨ indices_refresh_interval scraper = Always
    ∨ ∃ d f, indices_refresh_interval scraper = Duration d
             ∧ file = Some f ∧ (d < now - mtime f)%Z in
  let '(result, file', trace) := _get_index_reqs now scraper file in
  (AdapterCalled ∈ trace ↔ due)
  ∧ (due →
     match get_index_reqs scraper with
     | Some reqs =>
         result = Some reqs
         ∧ file' = Some {| mtime := now; saved_reqs := elements reqs |}
         ∧ trace = [AdapterCalled; Saved (elements reqs)]
     | None => result = None ∧ file' = file ∧ trace = [AdapterCalled]
     end)
  ∧ (¬ due →
     ∃ f, file = Some f ∧ result = Some (list_to_set (saved_reqs f))
          ∧ file' = file ∧ trace = []).
Proof.
  intros due.
  assert (due ↔ match file with
                | None => True
                | Some f => outdated (indices_refresh_interval scraper) now f
                            = true
                end) as Hdue.
  { unfold due, outdated. destruct file as [f|]; [|by split; [|left]].
    destruct (indices_refresh_interval scraper) as [| |d].
    - split; [done|]. intros _. by right; left.
    - split; [|done]. by intros [?|[?|(d & f' & ? & _)]].
    - rewrite bool_decide_eq_true. split.
      + by intros [?|[?|(d' & f' & [= <-] & [= <-] & ?)]].
      + intros Hd. right; right. by exists d, f. }
  assert (∀ A (tl : list (event A)), AdapterCalled ∈ AdapterCalled :: tl)
    as Hcalled by (intros; constructor).
  unfold _get_index_reqs.
  destruct file as [f|];
    [destruct (outdated (indices_refresh_interval scraper) now f)|].
  - destruct (get_index_reqs scraper) as [reqs|];
      (split_and!; [by split; [tauto|]|done|tauto]).
  - split_and!.
    + split; [by intros ?%elem_of_nil|]. by intros Hd%Hdue.
    + by intros Hd%Hdue.
    + intros _. by exists f.
  - destruct (get_index_reqs scraper) as [reqs|];
      (split_and!; [by split; [tauto|]|done|tauto]).
Qed.

Lemma still_indexed_elem interval now index_reqs loaded
  (l : index_line Request) :
  l ∈ still_indexed interval now index_reqs loaded
  ↔ l ∈ loaded ∧ line_req l ∈ index_reqs ∧ fresh interval now l = true.
Proof. unfold still_indexed. rewrite list_elem_of_filter. tauto. Qed.

Lemma still_indexed_length interval now index_reqs loaded :
  length (still_indexed interval now index_reqs loaded) = length loaded
  ↔ still_indexed interval now index_reqs loaded = loaded.
Proof.
  split; [|by intros ->]. unfold still_indexed.
  induction loaded as [|l loaded IH]; [done|].
  rewrite filter_cons. case_decide as Hl; simpl.
  - intros [= Hlen]. by rewrite IH.
  - intros Hlen. pose proof (length_filter
      (λ l, line_req l ∈ index_reqs ∧ fresh interval now l = true) loaded).
    lia.
Qed.

Lemma still_indexed_all interval now index_reqs loaded :
  still_indexed interval now index_reqs loaded = loaded
  ↔ ∀ l, l ∈ loaded →
         line_req l ∈ index_reqs ∧ fresh interval now l = true.
Proof.
  rewrite <- Forall_forall. unfold still_indexed.
  induction loaded as [|l loaded IH]; [by split; [constructor|]|].
  rewrite filter_cons, Forall_cons. case_decide as Hl.
  - split.
    + intros [= Heq]. split; [done|]. by apply IH.
    + intros [_ HF]. f_equal. by apply IH.
  - split; [|tauto]. intros Heq.
    pose proof (length_filter
      (λ l, line_req l ∈ index_reqs ∧ fresh interval now l = true) loaded)
      as Hlen.
    rewrite Heq in Hlen. simpl in Hlen. lia.
Qed.

Lemma still_indexed_removed interval now index_reqs loaded :
  length (still_indexed interval now index_reqs loaded) ≠ length loaded →
  ∃ l, l ∈ loaded
       ∧ ¬ (line_req l ∈ index_reqs ∧ fresh interval now l = true).
Proof.
  unfold still_indexed. induction loaded as [|l loaded IH]; [done|].
  rewrite filter_cons. case_decide as Hl; simpl.
  - intros Hlen. destruct IH as (l' & Hl' & Hnot); [lia|].
    exists l'. split; [by right|done].
  - intros _. exists l. split; [by left|done].
Qed.

Lemma fresh_within interval now (l : index_line Request) :
  interval ≠ Always →
  fresh interval now l = true
  ↔ interval = Never
    ∨ ∃ d, interval = Duration d ∧ (now - when_indexed l ≤ d)%Z.
Proof.
  intros Hint. destruct interval as [| |d]; [done|..]; simpl.
  - split; [by left|done].
  - rewrite bool_decide_eq_true. split.
    + intros Hd. right. by exists d.
    + by intros [?|(d' & [= <-] & ?)].
Qed.

Lemma get_unindexed_index_reqs_filtering now scraper index_reqs loaded :
  index_refresh_interval scraper ≠ Always →
  let index :=
    still_indexed (index_refresh_interval scraper) now index_reqs loaded in
  _get_unindexed_index_reqs now scraper index_reqs (Some loaded)
  = (index_reqs ∖ list_to_set (line_req <$> index),
     Some index,
     if decide (length index ≠ length loaded) then [Saved index] else []).
Proof.
  intros Hint. cbv zeta. unfold _get_unindexed_index_reqs.
  destruct (index_refresh_interval scraper) as [| |d]; [done|..].
  - case_decide as Hlen; [done|].
    apply still_indexed_length in Hlen. by rewrite Hlen.
  - case_decide as Hlen; [done|].
    apply still_indexed_length in Hlen. by rewrite Hlen.
Qed.

(** C4, as the code has it. Under [Always] every discovery request is
    returned and no index file is left. Otherwise the requests returned
    are the discovery requests that no loaded line carries with a
    retrieval time within the interval (any line when the interval is
    [Never]). A line older than a [Duration] interval is not in the file
    afterwards; its request is returned when it is a discovery request
    and every loaded line that carries it is that old. *)
Theorem get_unindexed_index_reqs_result now scraper index_reqs file :
  let interval := index_refresh_interval scraper in
  let loaded := default [] file in
  let within (l : index_line Request) :=
    interval = Never
    ∨ ∃ d, interval = Duration d ∧ (now - when_indexed l ≤ d)%Z in
  let '(unindexed, file', trace) :=
    _get_unindexed_index_reqs now scraper index_reqs file in
  (interval = Always →
   unindexed = index_reqs ∧ file' = None
   ∧ (is_Some file → trace = [Unlinked]))
  ∧ (interval ≠ Always →
     (∀ req, req ∈ unindexed
             ↔ req ∈ index_reqs
               ∧ ¬ ∃ l, l ∈ loaded ∧ line_req l = req
                        ∧ line_req l ∈ index_reqs ∧ within l)
     ∧ (∀ d l, interval = Duration d → l ∈ loaded →
               (d < now - when_indexed l)%Z →
               (∀ index, file' = Some index → l ∉ index)
               ∧ (line_req l ∈ index_reqs →
                  (∀ l', l' ∈ loaded → line_req l' = line_req l →
                         (d < now - when_indexed l')%Z) →
                  line_req l ∈ unindexed))).
Proof.
  intros interval loaded within.
  destruct file as [index0|]; simpl in loaded.
  2:{ simpl. split; [done|]. intros _. split.
      - intros req. split; [|tauto]. intros Hreq. split; [done|].
        by intros (l & ?%elem_of_nil & _).
      - by intros d l _ ?%elem_of_nil. }
  destruct (decide (interval = Always)) as [Halways|Hint].
  { unfold _get_unindexed_index_reqs. fold interval. rewrite Halways.
    split; [done|]. by intros []. }
  rewrite get_unindexed_index_reqs_filtering by done. fold interval.
  split; [done|]. intros _.
  assert (∀ req,
    req ∈ index_reqs
        ∖ list_to_set (C := gset Request)
            (line_req <$> still_indexed interval now index_reqs index0)
    ↔ req ∈ index_reqs
      ∧ ¬ ∃ l, l ∈ loaded ∧ line_req l = req
               ∧ line_req l ∈ index_reqs ∧ within l) as Hres.
  { intros req.
    rewrite elem_of_difference, elem_of_list_to_set, list_elem_of_fmap.
    apply and_iff_compat_l, not_iff_compat. split.
    - intros (l & -> & (? & ? & ?%fresh_within)%still_indexed_elem); [|done].
      by exists l.
    - intros (l & ? & <- & ? & ?%fresh_within); [|done].
      exists l. split; [done|]. by apply still_indexed_elem. }
  split; [done|]. intros d l Hd Hl Hold.
  assert (∀ l', (d < now - when_indexed l')%Z → ¬ within l') as Hstale.
  { intros l' Hl' [Hn|(d' & Hd' & ?)]; [congruence|].
    assert (d' = d) as -> by congruence. lia. }
  split.
  - intros index [= <-] (_ & _ & ?%fresh_within)%still_indexed_elem; [|done].
    by eapply Hstale.
  - intros Hreq Hall. apply Hres. split; [done|].
    intros (l' & Hl' & Heq & _ & Hw). eapply Hstale; [|done]. by apply Hall.
Qed.

(** C5. When [_get_unindexed_index_reqs] filters a loaded index, it
    writes the index file exactly when the filter removed a line, which is
    when the two lengths differ; what it then writes is the filtered index.
    When no line is removed, nothing is written and the file is as it
    was. *)
Theorem index_file_overwritten_iff now scraper index_reqs loaded :
  index_refresh_interval scraper ≠ Always →
  let interval := index_refresh_interval scraper in
  let index := still_indexed interval now index_reqs loaded in
  let removed :=
    ∃ l, l ∈ loaded
         ∧ ¬ (line_req l ∈ index_reqs
              ∧ (interval = Never
                 ∨ ∃ d, interval = Duration d
                        ∧ (now - when_indexed l ≤ d)%Z)) in
  let '(_, file', trace) :=
    _get_unindexed_index_reqs now scraper index_reqs (Some loaded) in
  ((∃ content, Saved content ∈ trace) ↔ removed)
  ∧ (removed ↔ length index ≠ length loaded)
  ∧ (removed → trace = [Saved index] ∧ file' = Some index)
  ∧ (¬ removed → trace = [] ∧ file' = Some loaded).
Proof.
  intros Hint interval index removed.
  rewrite get_unindexed_index_reqs_filtering by done.
  fold interval. fold index.
  assert (removed ↔ length index ≠ length loaded) as Hremoved.
  { split.
    - intros (l & Hl & Hnot). unfold index, still_indexed.
      apply Nat.lt_neq, (length_filter_lt _ _ l); [done|].
      intros [? ?%fresh_within]; [|done]. by apply Hnot.
    - intros (l & Hl & Hnot)%still_indexed_removed.
      exists l. split; [done|]. intros [? ?%fresh_within]; [|done].
      by apply Hnot. }
  case_decide as Hlen.
  - split_and!; [|done|done|].
    + split; [by intros _; apply Hremoved|]. intros _. exists index.
      constructor.
    + intros Hnone. destruct Hnone. by apply Hremoved.
  - split_and!; [|done|by intros ?%Hremoved|].
    + split; [by intros [? ?%elem_of_nil]|by intros ?%Hremoved].
    + intros _. split; [done|]. f_equal.
      by apply still_indexed_length.
Qed.

End index_files.

(** ** Reconciliation of the corpus *)

Section reconciliation.
Import Py Creator.
Context {Request : Type} `{Countable Request}.

Implicit Types (entries : gmap string (Scraper Request * Entry Request)).
Implicit Types (scrapers : gmap string (Scraper Request)).
Implicit Types (st : pass) (doc : Doc) (corpus pre post : list Doc).
Implicit Types (v s : string) (ids : list string).

Lemma keep_readable entries scrapers ids doc v s :
  doc !! "version_id" = Some v → doc !! "source" = Some s →
  keep entries scrapers ids doc
  = Some (bool_decide ((v ∉ ids) ∧ (v ∈ dom entries ∨ s ∉ dom scrapers))).
Proof.
  intros Hv Hs. unfold keep, and_then, or_else. rewrite Hv, Hs. simpl.
  repeat case_bool_decide; simpl; try done; tauto.
Qed.

Lemma stream_step_readable entries scrapers st doc v s :
  doc !! "version_id" = Some v → doc !! "source" = Some s →
  stream_step entries scrapers st doc
  = Some (if decide ((v ∉ corpus_version_ids st)
                     ∧ (v ∈ dom entries ∨ s ∉ dom scrapers))
          then Pass (tmp_file st ++ [doc]) (corpus_version_ids st ++ [v])
          else st).
Proof.
  intros Hv Hs. unfold stream_step, write.
  rewrite (keep_readable _ _ _ _ v s) by done. simpl.
  case_bool_decide; case_decide; try done. by rewrite Hv.
Qed.

(** Whatever a turn of the loop does, it leaves the state alone or writes
    the record it read. *)
Lemma stream_step_cases entries scrapers st doc st' :
  stream_step entries scrapers st doc = Some st' →
  st' = st
  ∨ ∃ v, doc !! "version_id" = Some v ∧ (v ∉ corpus_version_ids st)
         ∧ st' = Pass (tmp_file st ++ [doc]) (corpus_version_ids st ++ [v]).
Proof.
  unfold stream_step, write, keep, and_then, or_else.
  destruct (doc !! "version_id") as [v|]; [simpl|done].
  case_bool_decide as Hv; simpl; [|intros [= <-]; by left].
  case_bool_decide; simpl.
  - intros [= <-]. right. by exists v.
  - destruct (doc !! "source") as [s|]; [simpl|done].
    case_bool_decide; intros [= <-]; [right; by exists v|by left].
Qed.

Lemma rewrite_corpus_app entries scrapers pre post st :
  rewrite_corpus entries scrapers (pre ++ post) st
  = rewrite_corpus entries scrapers pre st
    ≫= rewrite_corpus entries scrapers post.
Proof.
  revert st. induction pre as [|doc pre IH]; intros st; simpl.
  - done.
  - destruct (stream_step entries scrapers st doc) as [st'|]; simpl; auto.
Qed.

Lemma rewrite_corpus_readable entries scrapers corpus st :
  Forall readable corpus →
  is_Some (rewrite_corpus entries scrapers corpus st).
Proof.
  intros Hall. revert st.
  induction Hall as [|doc corpus [[v Hv] [s Hs]] _ IH]; intros st; simpl.
  - done.
  - rewrite (stream_step_readable _ _ _ _ v s) by done. simpl. apply IH.
Qed.

(** The pass only appends to the temporary file, the identifiers in
    [corpus_version_ids] are those of the records written, in the same
    order, and none occurs twice. *)
Lemma rewrite_corpus_invariant entries scrapers corpus st st' :
  rewrite_corpus entries scrapers corpus st = Some st' →
  tmp_file st `prefix_of` tmp_file st'
  ∧ ((.!! "version_id") <$> tmp_file st = Some <$> corpus_version_ids st →
     (.!! "version_id") <$> tmp_file st' = Some <$> corpus_version_ids st')
  ∧ (NoDup (corpus_version_ids st) → NoDup (corpus_version_ids st')).
Proof.
  revert st. induction corpus as [|doc corpus IH]; intros st; simpl.
  - by intros [= <-].
  - destruct (stream_step entries scrapers st doc) as [st1|] eqn:Hstep;
      [simpl|done].
    intros (Hpre & Hids & Hnodup)%IH.
    destruct (stream_step_cases _ _ _ _ _ Hstep)
      as [->|(v & Hv & Hnew & ->)]; [done|].
    simpl in *. split_and!.
    + etrans; [|done]. by apply prefix_app_r.
    + intros Hst. apply Hids. rewrite !fmap_app, Hst. simpl. by rewrite Hv.
    + intros Hst. apply Hnodup, NoDup_app. split_and!; [done| |].
      * intros x Hx ->%list_elem_of_singleton. done.
      * apply NoDup_singleton.
Qed.

(** The states around the turn of the loop that reads [doc]. *)
Lemma rewrite_corpus_at entries scrapers pre doc post :
  Forall readable (pre ++ doc :: post) →
  ∃ st st' final v s,
    rewrite_corpus entries scrapers pre (Pass [] []) = Some st
    ∧ rewrite_corpus entries scrapers (pre ++ [doc]) (Pass [] [])
      = Some st'
    ∧ rewrite_corpus entries scrapers (pre ++ doc :: post) (Pass [] [])
      = Some final
    ∧ tmp_file st' `prefix_of` tmp_file final
    ∧ (.!! "version_id") <$> tmp_file st = Some <$> corpus_version_ids st
    ∧ doc !! "version_id" = Some v ∧ doc !! "source" = Some s
    ∧ st' = (if decide ((v ∉ corpus_version_ids st)
                        ∧ (v ∈ dom entries ∨ s ∉ dom scrapers))
             then Pass (tmp_file st ++ [doc])
                       (corpus_version_ids st ++ [v])
             else st).
Proof.
  intros [Hpre Hrest]%Forall_app.
  apply Forall_cons in Hrest as [[[v Hv] [s Hs]] Hpost].
  destruct (rewrite_corpus_readable entries scrapers pre (Pass [] []) Hpre)
    as [st Hst].
  pose proof (stream_step_readable entries scrapers st doc v s Hv Hs)
    as Hstep.
  set (st' := if decide _ then _ else _) in Hstep.
  destruct (rewrite_corpus_readable entries scrapers post st' Hpost)
    as [final Hfinal].
  exists st, st', final, v, s.
  rewrite !rewrite_corpus_app, Hst. simpl. rewrite Hstep. simpl.
  split_and!; try done.
  - by apply (rewrite_corpus_invariant _ _ _ _ _ Hfinal).
  - by apply (rewrite_corpus_invariant _ _ _ _ _ Hst).
Qed.

(** C1. In the pass over a corpus whose records have a [version_id] and
    a [source], the record read at any position is written to the temporary
    file exactly when its version id is not among those written before it
    in the pass and, moreover, the version id is a key of [entries] or the
    source is not a key of [scrapers]; otherwise the turn changes nothing.
    What has been written stays in the file to the end of the pass. *)
Theorem rewrite_corpus_keeps_iff entries scrapers corpus :
  Forall readable corpus →
  ∃ final,
    rewrite_corpus entries scrapers corpus (Pass [] []) = Some final
    ∧ ∀ pre doc post, corpus = pre ++ doc :: post →
      ∃ st st' v s,
        rewrite_corpus entries scrapers pre (Pass [] []) = Some st
        ∧ rewrite_corpus entries scrapers (pre ++ [doc]) (Pass [] [])
          = Some st'
        ∧ tmp_file st' `prefix_of` tmp_file final
        ∧ (.!! "version_id") <$> tmp_file st
          = Some <$> corpus_version_ids st
        ∧ doc !! "version_id" = Some v ∧ doc !! "source" = Some s
        ∧ (st' = Pass (tmp_file st ++ [doc]) (corpus_version_ids st ++ [v])
           ↔ (v ∉ corpus_version_ids st)
             ∧ (v ∈ dom entries ∨ s ∉ dom scrapers))
        ∧ (st' = st
           ↔ ¬ ((v ∉ corpus_version_ids st)
                ∧ (v ∈ dom entries ∨ s ∉ dom scrapers))).
Proof.
  intros Hall.
  destruct (rewrite_corpus_readable entries scrapers corpus (Pass [] []))
    as [final Hfinal]; [done|].
  exists final. split; [done|]. intros pre doc post ->.
  destruct (rewrite_corpus_at entries scrapers pre doc post Hall)
    as (st & st' & final' & v & s & Hst & Hst' & Hfin & Hpre & Hids
        & Hv & Hs & Hstep).
  assert (final' = final) as -> by congruence.
  exists st, st', v, s. split_and!; try done.
  - rewrite Hstep. case_decide as Hcond; [done|]. split; [|done].
    intros Heq. apply (f_equal (λ st, length (tmp_file st))) in Heq.
    simpl in Heq. rewrite length_app in Heq. simpl in Heq. lia.
  - rewrite Hstep. case_decide as Hcond; [|done]. split; [|done].
    intros Heq. apply (f_equal (λ st, length (tmp_file st))) in Heq.
    simpl in Heq. rewrite length_app in Heq. simpl in Heq. lia.
Qed.

(** C3, as the code has it. A record that the pass does not write either
    repeats the version id of a record written before it, or has a version
    id that is no key of [entries] together with a source that is a key of
    [scrapers]. A record whose source is no key of [scrapers] and whose
    version id has not been written before it is written as it is and is in
    the temporary file at the end. *)
Theorem rewrite_corpus_removes_only entries scrapers corpus :
  Forall readable corpus →
  ∀ pre doc post, corpus = pre ++ doc :: post →
    ∃ st st' final v s,
      rewrite_corpus entries scrapers pre (Pass [] []) = Some st
      ∧ rewrite_corpus entries scrapers (pre ++ [doc]) (Pass [] [])
        = Some st'
      ∧ rewrite_corpus entries scrapers corpus (Pass [] []) = Some final
      ∧ doc !! "version_id" = Some v ∧ doc !! "source" = Some s
      ∧ (st' = st →
         (∃ doc', doc' ∈ tmp_file st ∧ doc' !! "version_id" = Some v)
         ∨ ((v ∉ dom entries) ∧ s ∈ dom scrapers))
      ∧ (s ∉ dom scrapers →
         (∀ doc', doc' ∈ tmp_file st → doc' !! "version_id" ≠ Some v) →
         tmp_file st' = tmp_file st ++ [doc] ∧ doc ∈ tmp_file final).
Proof.
  intros Hall pre doc post ->.
  destruct (rewrite_corpus_at entries scrapers pre doc post Hall)
    as (st & st' & final & v & s & Hst & Hst' & Hfin & Hpre & Hids
        & Hv & Hs & Hstep).
  assert (v ∈ corpus_version_ids st
          ↔ ∃ doc', doc' ∈ tmp_file st ∧ doc' !! "version_id" = Some v)
    as Hseen.
  { rewrite <- (list_elem_of_fmap_inj Some), <- Hids, list_elem_of_fmap.
    split; intros (doc' & ? & ?); by exists doc'. }
  exists st, st', final, v, s. split_and!; try done.
  - rewrite Hstep. case_decide as Hcond.
    + intros Heq. apply (f_equal (λ st, length (tmp_file st))) in Heq.
      simpl in Heq. rewrite length_app in Heq. simpl in Heq. lia.
    + intros _.
      destruct (decide (v ∈ corpus_version_ids st)) as [Hdup|Hnew];
        [left; by apply Hseen|].
      right. split; [|apply dec_stable]; intros ?; apply Hcond; tauto.
  - intros Hforeign Hfirst.
    assert (v ∉ corpus_version_ids st) as Hnew.
    { intros (doc' & ? & ?)%Hseen. by eapply Hfirst. }
    rewrite decide_True in Hstep by tauto. subst st'. split; [done|].
    eapply elem_of_prefix; [|done]. simpl.
    apply elem_of_app. right. constructor.
Qed.

End reconciliation.

(** ** The corpus after a run *)

Section run.
Import Py Creator.
Context {Request : Type} `{Countable Request}.

Implicit Types (entries : gmap string (Scraper Request * Entry Request)).
Implicit Types (scrapers : gmap string (Scraper Request)).
Implicit Types (indices : list (Scraper Request * list (index_line Request))).
Implicit Types (se : Scraper Request * Entry Request).
Implicit Types (completed : list (Scraper Request * Entry Request)).

Lemma foldl_insert_lookup (l : list (Scraper Request * Entry Request))
  entries k se :
  foldl (λ entries se, <[version_id se.2 := se]> entries) entries l !! k
    = Some se →
  entries !! k = Some se ∨ (version_id se.2 = k ∧ se ∈ l).
Proof.
  revert entries. induction l as [|x l IH]; intros entries; simpl.
  - by left.
  - intros [Hx|[? ?]]%IH.
    + apply lookup_insert_Some in Hx as [[<- <-]|[_ ?]].
      * right. split; [done|]. by left.
      * by left.
    + right. split; [done|]. by right.
Qed.

(** Every value of [entries] sits under its own version id and comes from
    one of the indices. *)
Lemma flatten_lookup indices k se :
  flatten indices !! k = Some se →
  version_id se.2 = k ∧ se ∈ discovered indices.
Proof.
  unfold flatten. intros [Hempty|?]%foldl_insert_lookup; [|done].
  by rewrite lookup_empty in Hempty.
Qed.

Lemma discovered_scraper indices se :
  se ∈ discovered indices → se.1 ∈ indices.*1.
Proof.
  unfold discovered. rewrite list_elem_of_bind.
  intros ([scraper index] & Hse & Hin).
  apply list_elem_of_bind in Hse as ([[req entries] t] & Hse & _).
  apply list_elem_of_bind in Hse as (entry & ->%list_elem_of_singleton & _).
  simpl. apply list_elem_of_fmap. by exists (scraper, index).
Qed.

Lemma load_indices_scrapers scrapers index_files indices scraper :
  load_indices scrapers index_files = Some indices →
  scraper ∈ indices.*1 → ∃ name, scrapers !! name = Some scraper.
Proof.
  unfold load_indices. intros Hload Hin.
  apply (mapM_fmap_Some_inv _ fst) in Hload.
  - rewrite Hload in Hin.
    apply list_elem_of_fmap in Hin as ([name scraper'] & -> & Hin).
    exists name. by apply elem_of_map_to_list.
  - intros x [y index]. destruct (index_files !! source x); [simpl|done].
    by intros [= <- _].
Qed.

Lemma missing_entries_elem entries (ids : gset string) se :
  se ∈ missing_entries entries ids →
  ∃ k, entries !! k = Some se ∧ k ∉ ids.
Proof.
  unfold missing_entries. rewrite list_elem_of_fmap.
  intros ([k se'] & -> & [Hk Hin]%list_elem_of_filter).
  exists k. split; [|done]. by apply elem_of_map_to_list.
Qed.

Lemma missing_entries_NoDup entries (ids : gset string) :
  (∀ k se, entries !! k = Some se → version_id se.2 = k) →
  NoDup ((λ se, version_id se.2) <$> missing_entries entries ids).
Proof.
  intros Hkeys. unfold missing_entries. rewrite <- list_fmap_compose.
  rewrite (Forall_fmap_ext_1 _ fst).
  - eapply sublist_NoDup; [apply (NoDup_fst_map_to_list entries)|].
    apply fmap_sublist, sublist_filter.
  - apply Forall_forall. intros [k se] [_ Hin]%list_elem_of_filter.
    apply elem_of_map_to_list in Hin. simpl. by apply Hkeys.
Qed.

Lemma append_docs_app (corpus : list Doc) completed :
  append_docs corpus completed
  = corpus ++ omap (λ se, asdict <$> get_doc se.1 se.2) completed.
Proof.
  unfold append_docs. revert corpus.
  induction completed as [|se completed IH]; intros corpus; simpl.
  - by rewrite app_nil_r.
  - rewrite IH. destruct (get_doc se.1 se.2) as [doc|]; simpl; [|done].
    by rewrite <- app_assoc.
Qed.

Lemma asdict_version_id (doc : Document) :
  asdict doc !! "version_id" = Some (doc_version_id doc).
Proof. apply lookup_insert_eq. Qed.

Lemma asdict_fields (doc : Document) : dom (asdict doc) = Document_fields.
Proof.
  unfold asdict, Document_fields.
  rewrite !dom_insert_L, dom_singleton_L. set_solver.
Qed.

(** The version ids of the documents appended for [completed]. *)
Lemma append_docs_version_ids completed :
  (.!! "version_id")
    <$> omap (λ se, asdict <$> get_doc se.1 se.2) completed
  = Some <$> omap (λ se, doc_version_id <$> get_doc se.1 se.2) completed.
Proof.
  induction completed as [|se completed IH]; csimpl; [done|].
  destruct (get_doc se.1 se.2) as [doc|]; csimpl; [|done].
  by rewrite IH, asdict_version_id.
Qed.

Lemma omap_sublist_fmap {A B} (f : A → option B) (g : A → B) (l : list A) :
  (∀ x y, x ∈ l → f x = Some y → y = g x) →
  omap f l `sublist_of` g <$> l.
Proof.
  induction l as [|x l IH]; intros Hfg; simpl; [done|].
  assert (omap f l `sublist_of` g <$> l) as Hl.
  { apply IH. intros x' y ?. apply Hfg. by right. }
  destruct (f x) as [y|] eqn:Hx.
  - rewrite (Hfg x y) by (done || by left). by apply sublist_skip.
  - by apply sublist_cons.
Qed.

(** C2. When a run ends, every record of the corpus file has a
    [version_id] and no two records have the same, provided each scraper's
    [get_doc] gives a document the version id of the entry it was asked
    for: the pass writes no version id twice, and the documents appended
    come from distinct keys of [entries] that the pass has not written. *)
Theorem create_version_ids_distinct scrapers index_files corpus final :
  (∀ name scraper entry doc,
     scrapers !! name = Some scraper →
     get_doc scraper entry = Some doc →
     doc_version_id doc = version_id entry) →
  create scrapers index_files corpus final →
  ∃ ids, (.!! "version_id") <$> final = Some <$> ids ∧ NoDup ids.
Proof.
  intros Hdoc Hrun.
  destruct Hrun as [indices st Hload Hpass _
                   |indices st completed Hload Hpass _ Hperm];
    destruct (rewrite_corpus_invariant _ _ _ _ _ Hpass)
      as (_ & Hids & Hnodup);
    specialize (Hids eq_refl); specialize (Hnodup (NoDup_nil_2));
    simpl in *.
  { by exists (corpus_version_ids st). }
  set (entries := flatten indices) in *.
  set (kept := list_to_set (corpus_version_ids st) : gset string) in *.
  assert (∀ se doc, se ∈ completed → get_doc se.1 se.2 = Some doc →
                    doc_version_id doc = version_id se.2) as Hsame.
  { intros se doc Hse Hget. rewrite Hperm in Hse.
    apply missing_entries_elem in Hse as (k & Hk & _).
    apply flatten_lookup in Hk as [_ Hin%discovered_scraper].
    destruct (load_indices_scrapers _ _ _ _ Hload Hin) as [name Hname].
    by eapply Hdoc. }
  assert (omap (λ se, doc_version_id <$> get_doc se.1 se.2) completed
          `sublist_of` (λ se, version_id se.2) <$> completed) as Hsub.
  { apply omap_sublist_fmap. intros se v Hse Hv.
    destruct (get_doc se.1 se.2) as [doc|] eqn:Hget; [|done].
    injection Hv as <-. by eapply Hsame. }
  exists (corpus_version_ids st
          ++ omap (λ se, doc_version_id <$> get_doc se.1 se.2) completed).
  split.
  - by rewrite append_docs_app, !fmap_app, Hids, append_docs_version_ids.
  - apply NoDup_app. split_and!; [done| |].
    + intros v Hkept Hnew. eapply elem_of_sublist in Hnew; [|done].
      apply list_elem_of_fmap in Hnew as (se & -> & Hse).
      rewrite Hperm in Hse.
      apply missing_entries_elem in Hse as (k & Hk & Hmissing).
      apply flatten_lookup in Hk as [<- _].
      apply Hmissing, elem_of_list_to_set, Hkept.
    + eapply sublist_NoDup; [|done]. rewrite Hperm.
      apply missing_entries_NoDup. intros k se Hk.
      by apply flatten_lookup in Hk as [? _].
Qed.

(** A run over readable records ends: the run relation is not empty. *)
Lemma create_total scrapers index_files corpus indices :
  load_indices scrapers index_files = Some indices →
  Forall readable corpus →
  ∃ final, create scrapers index_files corpus final.
Proof.
  intros Hload Hall.
  destruct (rewrite_corpus_readable (flatten indices) scrapers corpus
              (Pass [] []) Hall) as [st Hst].
  destruct (missing_entries (flatten indices)
              (list_to_set (corpus_version_ids st))) as [|se l] eqn:Hmiss.
  - exists (tmp_file st). by eapply create_up_to_date.
  - exists (append_docs (tmp_file st) (se :: l)).
    eapply create_updated; [done|done| |]; by rewrite Hmiss.
Qed.

End run.

(** ** The scrapers of a creator *)

Section selection.
Import Py Creator.
Context {Request : Type} `{Countable Request}.

Implicit Types (M : scrapers_module Request) (names : list string).

Lemma SOURCES_keys_NoDup M : NoDup (SOURCES_keys M).
Proof. by apply (bool_decide_unpack _). Qed.

Lemma SOURCES_keys_lookup M name :
  name ∈ SOURCES_keys M ↔ is_Some (SOURCES M !! name).
Proof.
  unfold SOURCES_keys, SOURCES. split.
  - intros ([name' scraper] & -> & Hin)%list_elem_of_fmap.
    exists scraper. apply elem_of_list_to_map_1; [|done].
    apply SOURCES_keys_NoDup.
  - intros [scraper Hin%elem_of_list_to_map_2].
    apply list_elem_of_fmap. by exists (name, scraper).
Qed.

Lemma SOURCES_source M name scraper :
  Forall (λ item, source item.2 = item.1) (SOURCES_items M) →
  SOURCES M !! name = Some scraper → source scraper = name.
Proof.
  intros Hall Hin%elem_of_list_to_map_2.
  by apply (proj1 (Forall_forall _ _) Hall (name, scraper)).
Qed.

(** Instantiating the scrapers of [names] and keying them by [source]. *)
Lemma instantiate_names M names :
  Forall (λ item, source item.2 = item.1) (SOURCES_items M) →
  (∀ name, name ∈ names → name ∈ SOURCES_keys M) →
  ∃ scrapers,
    mapM (instantiate M) (inl <$> names) = Some scrapers
    ∧ ∀ k (d0 : gmap string (Scraper Request)),
        foldl (λ d scraper, <[source scraper := scraper]> d) d0 scrapers
          !! k
        = if decide (k ∈ names) then SOURCES M !! k else d0 !! k.
Proof.
  intros Hsrc. induction names as [|name names IH]; intros Hkeys.
  - exists []. split; [done|]. intros k d0. by rewrite decide_False by
      (by intros ?%elem_of_nil).
  - destruct IH as (scrapers & Hmap & Hfold).
    { intros name' ?. apply Hkeys. by right. }
    destruct (proj1 (SOURCES_keys_lookup M name)) as [scraper Hname].
    { apply Hkeys. by left. }
    exists (scraper :: scrapers). split.
    { apply mapM_Some. rewrite fmap_cons.
      constructor; [done|]. by apply mapM_Some. }
    intros k d0. simpl. rewrite Hfold.
    rewrite (SOURCES_source M name scraper) by done.
    destruct (decide (k ∈ names)) as [Hk|Hk].
    + rewrite decide_True by (by right). done.
    + destruct (decide (k = name)) as [->|Hne].
      * rewrite decide_True by (by left). by rewrite lookup_insert_eq.
      * rewrite decide_False by (by intros [?|?]%elem_of_cons).
        by rewrite lookup_insert_ne.
Qed.

Lemma init_scrapers_names M names :
  Forall (λ item, source item.2 = item.1) (SOURCES_items M) →
  (∀ name, name ∈ names → name ∈ SOURCES_keys M) →
  (scrapers ← mapM (instantiate M) (inl <$> names);
   Some (foldl (λ d scraper, <[source scraper := scraper]> d) ∅ scrapers))
  = Some (filter (λ item, item.1 ∈ names) (SOURCES M)).
Proof.
  intros Hsrc Hkeys.
  destruct (instantiate_names M names Hsrc Hkeys)
    as (scrapers & -> & Hfold).
  simpl. f_equal. apply map_eq. intros k. rewrite Hfold, lookup_empty.
  destruct (decide (k ∈ names)) as [Hk|Hk].
  - destruct (SOURCES M !! k) as [scraper|] eqn:Hlook.
    + symmetry. by apply map_lookup_filter_Some_2.
    + symmetry. apply map_lookup_filter_None_2. by left.
  - symmetry. apply map_lookup_filter_None_2. right. by intros scraper _.
Qed.

(** C9, as the code has it. With [sources] left out ([None]) or an empty
    sized collection, the creator has the scrapers of all eight keys of
    [SOURCES]; with an iterator that yields nothing it has none; with a
    non-empty iterable of source names, all of them keys of [SOURCES], it
    has the scrapers of exactly those names. (Each class of
    [oalc_creator.scrapers] is taken to give its instances the name it has
    in [SOURCES].) *)
Theorem init_scrapers_selection M :
  Forall (λ item, source item.2 = item.1) (SOURCES_items M) →
  init_scrapers M None = Some (SOURCES M)
  ∧ init_scrapers M (Some (Sized [])) = Some (SOURCES M)
  ∧ size (SOURCES M) = 8
  ∧ init_scrapers M (Some (Iterator [])) = Some ∅
  ∧ ∀ xs names,
      items xs = inl <$> names → names ≠ [] →
      (∀ name, name ∈ names → name ∈ SOURCES_keys M) →
      init_scrapers M (Some xs)
      = Some (filter (λ item, item.1 ∈ names) (SOURCES M)).
Proof.
  intros Hsrc.
  assert ((scrapers ← mapM (instantiate M) (inl <$> SOURCES_keys M);
           Some (foldl (λ d scraper, <[source scraper := scraper]> d) ∅
                       scrapers))
          = Some (SOURCES M)) as Hall.
  { rewrite init_scrapers_names; [|done|done].
    rewrite map_filter_id; [done|]. intros k scraper Hk. simpl.
    apply SOURCES_keys_lookup. by exists scraper. }
  split_and!; [done|done| |done|].
  - unfold SOURCES. rewrite map_size_list_to_map; [done|].
    apply SOURCES_keys_NoDup.
  - intros xs names Hitems Hne Hkeys. unfold init_scrapers.
    assert (truthy xs = true) as ->.
    { destruct xs as [l|l]; [|done]. simpl in Hitems. subst l.
      by destruct names. }
    rewrite Hitems. by apply init_scrapers_names.
Qed.

End selection.

(** ** The fields of the records written *)

Section records.
Import Py.

Lemma get_document_corpus w url recursive fs :
  ∃ new,
    NswLegislation.corpus_jsonl
      (NswLegislation.get_document w url recursive fs).2
    = NswLegislation.corpus_jsonl fs ++ new
    ∧ Forall (λ d : Doc, dom d = NswLegislation.document_fields) new.
Proof.
  assert (∀ url fs, ∃ new,
    NswLegislation.corpus_jsonl
      (NswLegislation.get_document w url true fs).2
    = NswLegislation.corpus_jsonl fs ++ new
    ∧ Forall (λ d : Doc, dom d = NswLegislation.document_fields) new)
    as Hrec.
  { clear url fs. intros url fs. simp get_document.
    destruct (try_block_corpus w url fs) as (new & Hnew & Hall).
    destruct (NswLegislation.try_block w url fs) as [[e|] fs'];
      by exists new. }
  destruct recursive; [apply Hrec|]. simp get_document.
  destruct (try_block_corpus w url fs) as (new & Hnew & Hall).
  destruct (NswLegislation.try_block w url fs) as [[e|] fs'];
    [|by exists new].
  destruct (Hrec (NswLegislation.pdf_url url) fs')
    as (new' & Hnew' & Hall').
  exists (new ++ new'). simpl in Hnew. rewrite Hnew', Hnew, app_assoc.
  split; [done|]. by apply Forall_app.
Qed.

(** C8, as the code has it. Every record that the NSW Legislation
    adapter's [get_document] appends to the corpus file has the six fields
    [text], [type], [jurisdiction], [source], [citation] and [url], and no
    [version_id]. Every record that the creator appends for a fetched
    document has these six fields and [version_id]. *)
Theorem corpus_record_fields :
  (∀ w url recursive fs, ∃ new,
     NswLegislation.corpus_jsonl
       (NswLegislation.get_document w url recursive fs).2
     = NswLegislation.corpus_jsonl fs ++ new
     ∧ Forall (λ d : Doc,
                 dom d = {[ "text"; "type"; "jurisdiction"; "source";
                            "citation"; "url" ]}
                 ∧ d !! "version_id" = None) new)
  ∧ (∀ (Request : Type) `(Countable Request) (corpus : list Doc)
       (completed : list (Creator.Scraper Request * Creator.Entry Request)),
     ∃ new,
       Creator.append_docs corpus completed = corpus ++ new
       ∧ Forall (λ d : Doc,
                   dom d = {[ "text"; "type"; "jurisdiction"; "source";
                              "citation"; "url"; "version_id" ]}
                   ∧ is_Some (d !! "version_id")) new).
Proof.
  split.
  - intros w url recursive fs.
    destruct (get_document_corpus w url recursive fs)
      as (new & Hnew & Hall).
    exists new. split; [done|]. eapply Forall_impl; [done|].
    intros d Hd. split; [by rewrite Hd|].
    apply not_elem_of_dom. rewrite Hd.
    apply (bool_decide_unpack _). vm_compute. exact I.
  - intros Request ? ? corpus completed.
    exists (omap (λ se, Creator.asdict <$> Creator.get_doc se.1 se.2)
                 completed).
    split; [apply append_docs_app|].
    apply Forall_forall.
    intros d (se & _ & Hd)%list_elem_of_omap.
    destruct (Creator.get_doc se.1 se.2) as [doc|]; [|done].
    injection Hd as <-. split.
    + rewrite asdict_fields. unfold Creator.Document_fields. set_solver.
    + by rewrite asdict_version_id.
Qed.

(** Such a record stops the creator's pass over the corpus: reading its
    [version_id] raises [KeyError]. *)
Lemma rewrite_corpus_adapter_record {Request : Type} `{Countable Request}
  (entries : gmap string (Creator.Scraper Request * Creator.Entry Request))
  (scrapers : gmap string (Creator.Scraper Request))
  url citation text rest st :
  Creator.rewrite_corpus entries scrapers
    (NswLegislation.document url citation text :: rest) st = None.
Proof. reflexivity. Qed.

End records.

(** ** The properties on the sample runs *)

Section samples.
Import Py Examples.

(** *** The adapter *)

Lemma get_document_suppressed_witness :
  pdf_site epi_url = NswLegislation.Raises UnicodeDecodeError
  ∧ (UnicodeDecodeError = UnicodeDecodeError
     ∨ UnicodeDecodeError = IndexError)
  ∧ NswLegislation.get_document pdf_site epi_url false no_files
    = (NswLegislation.Returned,
       NswLegislation.Files [] [("nsw_legislation", epi_url)] [epi_url]).
Proof.
  split; [reflexivity|]. split; [by left|].
  apply (get_document_suppressed pdf_site epi_url false no_files
           UnicodeDecodeError); [reflexivity|by left].
Defined.

(** Against C7 as stated: the first attempt fails to decode, and no
    second attempt is made. *)
Lemma decode_error_without_fallback :
  pdf_site epi_url = NswLegislation.Raises UnicodeDecodeError
  ∧ NswLegislation.get_document pdf_site epi_url false no_files
    = (NswLegislation.Returned,
       NswLegislation.Files [] [("nsw_legislation", epi_url)] [epi_url])
  ∧ NswLegislation.pdf_url epi_url
    ∉ NswLegislation.requested
        (NswLegislation.get_document pdf_site epi_url false no_files).2.
Proof.
  split; [reflexivity|]. split; [vm_compute; reflexivity|].
  apply (bool_decide_unpack _). vm_compute. exact I.
Qed.

Lemma get_document_fallback_witness :
  NswLegislation.fails down_site epi_url = true
  ∧ NswLegislation.requested
      (NswLegislation.get_document down_site epi_url false no_files).2
    = [epi_url; NswLegislation.pdf_url epi_url]
  ∧ (NswLegislation.get_document down_site epi_url false no_files).1
    = NswLegislation.Raised
        ("Error getting document from "
         +:+ NswLegislation.pdf_url epi_url +:+ ".").
Proof.
  split; [reflexivity|].
  destruct (get_document_fallback down_site epi_url no_files eq_refl)
    as (Hreq & Hout & _).
  split; [exact Hreq|exact Hout].
Defined.

(** Against C8 as stated: the record written for a page that parses has
    no [version_id]. *)
Lemma adapter_record_without_version_id :
  NswLegislation.corpus_jsonl
    (NswLegislation.get_document html_site act_url false no_files).2
  = [NswLegislation.document act_url "Crimes Act 1900"
       "An Act to consolidate the Statutes."]
  ∧ NswLegislation.document act_url "Crimes Act 1900"
      "An Act to consolidate the Statutes." !! "version_id" = None.
Proof. split; vm_compute; reflexivity. Qed.

(** *** The index files *)

(** Against C4 as stated: the line is older than the interval, and its
    request is not returned, since it is no discovery request any more. *)
Lemma stale_request_not_returned :
  Creator.index_refresh_interval current = Creator.Duration 10
  ∧ (10 < 100 - Creator.when_indexed old_line)%Z
  ∧ Creator._get_unindexed_index_reqs 100 current ∅ (Some [old_line])
    = (∅, Some [], [Creator.Saved []])
  ∧ Creator.line_req old_line
    ∉ (Creator._get_unindexed_index_reqs 100 current ∅
         (Some [old_line])).1.1.
Proof.
  split; [reflexivity|]. split; [done|].
  split; [vm_compute; reflexivity|].
  apply (bool_decide_unpack _). vm_compute. exact I.
Qed.

Lemma index_file_overwritten_iff_witness :
  Creator.index_refresh_interval current ≠ Creator.Always
  ∧ let interval := Creator.index_refresh_interval current in
    let index :=
      Creator.still_indexed interval 100 {[ "search" ]}
        [old_line; new_line] in
    let removed :=
      ∃ l, l ∈ [old_line; new_line]
           ∧ ¬ (Creator.line_req l ∈ ({[ "search" ]} : gset string)
                ∧ (interval = Creator.Never
                   ∨ ∃ d, interval = Creator.Duration d
                          ∧ (100 - Creator.when_indexed l ≤ d)%Z)) in
    let '(_, file', trace) :=
      Creator._get_unindexed_index_reqs 100 current {[ "search" ]}
        (Some [old_line; new_line]) in
    ((∃ content, Creator.Saved content ∈ trace) ↔ removed)
    ∧ (removed ↔ length index ≠ length [old_line; new_line])
    ∧ (removed → trace = [Creator.Saved index] ∧ file' = Some index)
    ∧ (¬ removed → trace = [] ∧ file' = Some [old_line; new_line]).
Proof.
  split; [done|].
  apply (index_file_overwritten_iff 100 current {[ "search" ]}
           [old_line; new_line]).
  done.
Defined.

(** The run behind it: the old line goes, the file is written once. *)
Example index_file_overwritten :
  Creator._get_unindexed_index_reqs 100 current {[ "search" ]}
    (Some [old_line; new_line])
  = (∅, Some [new_line], [Creator.Saved [new_line]])
  ∧ Creator._get_unindexed_index_reqs 100 current {[ "search" ]}
      (Some [new_line])
    = (∅, Some [new_line], []).
Proof. split; vm_compute; reflexivity. Qed.

(** The three cases of C6 on a request file. *)
Example get_index_reqs_runs :
  Creator._get_index_reqs 100 current None
  = (Some {[ "search" ]},
     Some {| Creator.mtime := 100; Creator.saved_reqs := ["search"] |},
     [Creator.AdapterCalled; Creator.Saved ["search"]])
  ∧ Creator._get_index_reqs 100 current
      (Some {| Creator.mtime := 80; Creator.saved_reqs := ["old"] |})
    = (Some {[ "search" ]},
       Some {| Creator.mtime := 100; Creator.saved_reqs := ["search"] |},
       [Creator.AdapterCalled; Creator.Saved ["search"]])
  ∧ Creator._get_index_reqs 100 current
      (Some {| Creator.mtime := 95; Creator.saved_reqs := ["old"] |})
    = (Some {[ "old" ]},
       Some {| Creator.mtime := 95; Creator.saved_reqs := ["old"] |},
       []).
Proof. split_and!; vm_compute; reflexivity. Qed.

(** *** The scrapers of a creator *)

(** Against C9 as stated: an iterator that yields nothing is true for
    [or], so no scraper is made. *)
Lemma empty_iterator_selects_nothing :
  Creator.init_scrapers classes (Some (Iterator [])) = Some ∅
  ∧ size (Creator.SOURCES classes) = 8.
Proof. split; vm_compute; reflexivity. Qed.

Lemma init_scrapers_selection_witness :
  Forall (λ item, Creator.source item.2 = item.1)
         (Creator.SOURCES_items classes)
  ∧ Creator.init_scrapers classes None = Some (Creator.SOURCES classes)
  ∧ Creator.init_scrapers classes (Some (Sized []))
    = Some (Creator.SOURCES classes)
  ∧ size (Creator.SOURCES classes) = 8
  ∧ Creator.init_scrapers classes (Some (Iterator [])) = Some ∅
  ∧ Creator.init_scrapers classes
      (Some (Iterator [inl "nsw_caselaw"; inl "tasmanian_legislation"]))
    = Some (filter (λ item, item.1 ∈ ["nsw_caselaw";
                                      "tasmanian_legislation"])
                   (Creator.SOURCES classes)).
Proof.
  assert (Forall (λ item, Creator.source item.2 = item.1)
                 (Creator.SOURCES_items classes)) as Hsrc
    by (repeat constructor).
  split; [exact Hsrc|].
  destruct (init_scrapers_selection classes Hsrc)
    as (Hnone & Hempty & Hsize & Hiter & Hnames).
  split; [exact Hnone|]. split; [exact Hempty|]. split; [exact Hsize|].
  split; [exact Hiter|].
  apply Hnames; [reflexivity|discriminate|].
  intros name Hname. apply (bool_decide_unpack _).
  apply elem_of_cons in Hname as [->|Hname]; [vm_compute; exact I|].
  apply list_elem_of_singleton in Hname as ->. vm_compute. exact I.
Defined.

(** *** Reconciliation *)

Lemma rewrite_corpus_keeps_iff_witness :
  Forall Creator.readable corpus
  ∧ ∃ final,
      Creator.rewrite_corpus (Creator.flatten indices) scrapers corpus
        (Creator.Pass [] []) = Some final
      ∧ ∀ pre doc post, corpus = pre ++ doc :: post →
        ∃ st st' v s,
          Creator.rewrite_corpus (Creator.flatten indices) scrapers pre
            (Creator.Pass [] []) = Some st
          ∧ Creator.rewrite_corpus (Creator.flatten indices) scrapers
              (pre ++ [doc]) (Creator.Pass [] []) = Some st'
          ∧ Creator.tmp_file st' `prefix_of` Creator.tmp_file final
          ∧ (.!! "version_id") <$> Creator.tmp_file st
            = Some <$> Creator.corpus_version_ids st
          ∧ doc !! "version_id" = Some v ∧ doc !! "source" = Some s
          ∧ (st' = Creator.Pass (Creator.tmp_file st ++ [doc])
                     (Creator.corpus_version_ids st ++ [v])
             ↔ (v ∉ Creator.corpus_version_ids st)
               ∧ (v ∈ dom (Creator.flatten indices) ∨ s ∉ dom scrapers))
          ∧ (st' = st
             ↔ ¬ ((v ∉ Creator.corpus_version_ids st)
                  ∧ (v ∈ dom (Creator.flatten indices)
                     ∨ s ∉ dom scrapers))).
Proof.
  assert (Forall Creator.readable corpus) as Hall
    by (repeat constructor; by eexists).
  split; [exact Hall|].
  exact (rewrite_corpus_keeps_iff (Creator.flatten indices) scrapers
           corpus Hall).
Defined.

(** The pass behind it: of the two records [v1] the first is written,
    [v9] is no longer found and goes, [v7] of the other source stays. *)
Example rewrite_corpus_run :
  Creator.rewrite_corpus (Creator.flatten indices) scrapers corpus
    (Creator.Pass [] [])
  = Some (Creator.Pass [record "v1" "current"; record "v7" "legacy"]
                       ["v1"; "v7"]).
Proof. vm_compute. reflexivity. Qed.

(** Against C3 as stated: the second record is not written, although its
    source is not one of the run. *)
Lemma foreign_duplicate_removed :
  scrapers !! "legacy" = None
  ∧ Creator.rewrite_corpus (Creator.flatten indices) scrapers
      legacy_corpus (Creator.Pass [] [])
    = Some (Creator.Pass [record "v7" "legacy"] ["v7"]).
Proof. split; vm_compute; reflexivity. Qed.

Lemma rewrite_corpus_removes_only_witness :
  Forall Creator.readable corpus
  ∧ corpus = [record "v1" "current"; record "v1" "current"]
             ++ record "v9" "current" :: [record "v7" "legacy"]
  ∧ ∃ st st' final v s,
      Creator.rewrite_corpus (Creator.flatten indices) scrapers
        [record "v1" "current"; record "v1" "current"]
        (Creator.Pass [] []) = Some st
      ∧ Creator.rewrite_corpus (Creator.flatten indices) scrapers
          ([record "v1" "current"; record "v1" "current"]
           ++ [record "v9" "current"]) (Creator.Pass [] [])
        = Some st'
      ∧ Creator.rewrite_corpus (Creator.flatten indices) scrapers corpus
          (Creator.Pass [] []) = Some final
      ∧ record "v9" "current" !! "version_id" = Some v
      ∧ record "v9" "current" !! "source" = Some s
      ∧ (st' = st →
         (∃ doc', doc' ∈ Creator.tmp_file st
                  ∧ doc' !! "version_id" = Some v)
         ∨ ((v ∉ dom (Creator.flatten indices)) ∧ s ∈ dom scrapers))
      ∧ (s ∉ dom scrapers →
         (∀ doc', doc' ∈ Creator.tmp_file st →
                  doc' !! "version_id" ≠ Some v) →
         Creator.tmp_file st'
         = Creator.tmp_file st ++ [record "v9" "current"]
         ∧ record "v9" "current" ∈ Creator.tmp_file final).
Proof.
  assert (Forall Creator.readable corpus) as Hall
    by (repeat constructor; by eexists).
  split; [exact Hall|]. split; [reflexivity|].
  apply (rewrite_corpus_removes_only (Creator.flatten indices) scrapers
           corpus Hall [record "v1" "current"; record "v1" "current"]
           (record "v9" "current") [record "v7" "legacy"]).
  reflexivity.
Defined.

(** *** The corpus after a run *)

Lemma create_version_ids_distinct_witness :
  (∀ name scraper entry doc,
     scrapers !! name = Some scraper →
     Creator.get_doc scraper entry = Some doc →
     Creator.doc_version_id doc = Creator.version_id entry)
  ∧ Creator.create scrapers index_files corpus corpus_after
  ∧ ∃ ids, (.!! "version_id") <$> corpus_after = Some <$> ids ∧ NoDup ids.
Proof.
  assert (∀ name scraper entry doc,
     scrapers !! name = Some scraper →
     Creator.get_doc scraper entry = Some doc →
     Creator.doc_version_id doc = Creator.version_id entry) as Hdoc.
  { unfold scrapers.
    intros name scraper entry doc [_ <-]%lookup_singleton_Some.
    by intros [= <-]. }
  assert (Creator.create scrapers index_files corpus corpus_after) as Hrun.
  { apply (Creator.create_updated scrapers index_files corpus indices
             (Creator.Pass [record "v1" "current"; record "v7" "legacy"]
                           ["v1"; "v7"])
             [(current, entry "v2")]).
    - vm_compute. reflexivity.
    - vm_compute. reflexivity.
    - vm_compute. discriminate.
    - vm_compute. reflexivity. }
  split; [exact Hdoc|]. split; [exact Hrun|].
  exact (create_version_ids_distinct scrapers index_files corpus
           corpus_after Hdoc Hrun).
Defined.

End samples.


(** * Further properties *)

(** ** The pass over the corpus *)

Section pass.
Import Py Creator.
Context {Request : Type} `{Countable Request}.

Implicit Types (entries : gmap string (Scraper Request * Entry Request)).
Implicit Types (scrapers : gmap string (Scraper Request)).
Implicit Types (st : pass) (doc : Doc) (corpus kept : list Doc).
Implicit Types (v s : string) (ids : list string).

(** The two ways a turn of the loop can end, with what decided. *)
Lemma stream_step_inv entries scrapers st doc st' :
  stream_step entries scrapers st doc = Some st' →
  ∃ v, doc !! "version_id" = Some v
       ∧ ((st' = st
           ∧ (v ∈ corpus_version_ids st
              ∨ ((v ∉ dom entries)
                 ∧ ∃ s, doc !! "source" = Some s ∧ s ∈ dom scrapers)))
          ∨ (st' = Pass (tmp_file st ++ [doc]) (corpus_version_ids st ++ [v])
             ∧ (v ∉ corpus_version_ids st)
             ∧ retained entries scrapers doc)).
Proof.
  unfold stream_step, write, keep, and_then, or_else, retained.
  destruct (doc !! "version_id") as [v|] eqn:Hv; [simpl|done].
  intros Hstep. exists v. split; [done|]. revert Hstep.
  case_bool_decide as Hnew; simpl.
  2:{ intros [= <-]. left. split; [done|]. by left. }
  case_bool_decide as Hin; simpl.
  { intros [= <-]. right. split_and!; [done..|]. exists v. by split; [|left]. }
  destruct (doc !! "source") as [s|] eqn:Hs; [simpl|done].
  case_bool_decide as Hout; intros [= <-].
  - right. split_and!; [done..|]. exists v. split; [done|]. right. by exists s.
  - left. split; [done|]. right. split; [done|]. by exists s.
Qed.

(** What a pass adds to the temporary file. *)
Lemma rewrite_corpus_kept entries scrapers corpus st st' :
  rewrite_corpus entries scrapers corpus st = Some st' →
  ∃ kept new_ids,
    tmp_file st' = tmp_file st ++ kept
    ∧ corpus_version_ids st' = corpus_version_ids st ++ new_ids
    ∧ (.!! "version_id") <$> kept = Some <$> new_ids
    ∧ kept `sublist_of` corpus
    ∧ Forall (retained entries scrapers) kept
    ∧ NoDup new_ids
    ∧ ∀ v, v ∈ new_ids → v ∉ corpus_version_ids st.
Proof.
  revert st. induction corpus as [|doc corpus IH]; intros st; simpl.
  { intros [= <-]. exists [], []. rewrite !app_nil_r.
    split_and!; try done; [constructor|by intros v ?%elem_of_nil]. }
  destruct (stream_step entries scrapers st doc) as [st1|] eqn:Hstep;
    [simpl|done].
  intros (kept & new_ids & Htmp & Hids & Hvids & Hsub & Hret & Hnodup
          & Hnew)%IH.
  destruct (stream_step_inv _ _ _ _ _ Hstep)
    as (v & Hv & [[-> _]|(-> & Hfresh & Hdoc)]).
  { exists kept, new_ids. split_and!; try done. by apply sublist_cons. }
  simpl in *. exists (doc :: kept), (v :: new_ids).
  rewrite Htmp, Hids, <- !app_assoc. split_and!; try done.
  - by rewrite !fmap_cons, Hv, Hvids.
  - by apply sublist_skip.
  - by constructor.
  - apply NoDup_cons. split; [|done]. intros Hin%Hnew. apply Hin.
    apply elem_of_app. right. constructor.
  - intros v' [->|Hin]%elem_of_cons; [done|]. apply Hnew in Hin.
    intros Hold. apply Hin, elem_of_app. by left.
Qed.

(** X1. Whatever the records look like, when the pass ends the temporary
    file holds records of the corpus in their order in the corpus, without
    a repeated version id, and each of them has a version id that is a key
    of [entries] or a source that is no key of [scrapers]. *)
Theorem rewrite_corpus_retains entries scrapers corpus st :
  rewrite_corpus entries scrapers corpus (Pass [] []) = Some st →
  tmp_file st `sublist_of` corpus
  ∧ Forall (retained entries scrapers) (tmp_file st)
  ∧ (.!! "version_id") <$> tmp_file st = Some <$> corpus_version_ids st
  ∧ NoDup (corpus_version_ids st).
Proof.
  intros (kept & new_ids & Htmp & Hids & Hvids & Hsub & Hret & Hnodup
          & _)%rewrite_corpus_kept.
  simpl in *. by rewrite Htmp, Hids.
Qed.

(** A version id stays in [corpus_version_ids] once it is there, and a
    key of [entries] that some record carries gets there. *)
Lemma rewrite_corpus_seen entries scrapers corpus st st' v :
  rewrite_corpus entries scrapers corpus st = Some st' →
  (v ∈ corpus_version_ids st → v ∈ corpus_version_ids st')
  ∧ (v ∈ dom entries →
     (∃ doc, doc ∈ corpus ∧ doc !! "version_id" = Some v) →
     v ∈ corpus_version_ids st').
Proof.
  revert st. induction corpus as [|doc corpus IH]; intros st; simpl.
  { intros [= <-]. split; [done|]. by intros _ (doc & ?%elem_of_nil & _). }
  destruct (stream_step entries scrapers st doc) as [st1|] eqn:Hstep;
    [simpl|done].
  intros [Hold Hnew]%IH.
  destruct (stream_step_inv _ _ _ _ _ Hstep) as (v' & Hv' & Hcases).
  assert (v ∈ corpus_version_ids st → v ∈ corpus_version_ids st1) as Hgrow.
  { destruct Hcases as [[-> _]|(-> & _)]; [done|]. simpl. intros ?.
    apply elem_of_app. by left. }
  split; [by intros ?%Hgrow%Hold|].
  intros Hkey (doc' & [->|Hin]%elem_of_cons & Hdoc'); [|by eauto].
  apply Hold. assert (v' = v) as -> by congruence.
  destruct Hcases as [[-> [?|[? _]]]|(-> & _)]; [done|done|].
  simpl. apply elem_of_app. right. constructor.
Qed.

(** X2. When the pass ends, the entries fetched afterwards are those whose
    version id no record of the corpus carries: a document that is in the
    corpus is not fetched again, and one that is not is fetched whatever the
    pass removed. *)
Theorem missing_entries_not_in_corpus entries scrapers corpus st :
  rewrite_corpus entries scrapers corpus (Pass [] []) = Some st →
  ∀ se, se ∈ missing_entries entries (list_to_set (corpus_version_ids st))
        ↔ ∃ k, entries !! k = Some se
               ∧ ∀ doc, doc ∈ corpus → doc !! "version_id" ≠ Some k.
Proof.
  intros Hpass se.
  assert (∀ k, is_Some (entries !! k) →
               k ∈ corpus_version_ids st
               ↔ ∃ doc, doc ∈ corpus ∧ doc !! "version_id" = Some k)
    as Hids.
  { intros k Hk%elem_of_dom. split.
    - destruct (rewrite_corpus_kept _ _ _ _ _ Hpass)
        as (kept & new_ids & _ & Hnew & Hvids & Hsub & _).
      simpl in Hnew. rewrite Hnew. intros Hin.
      apply (list_elem_of_fmap_2 Some) in Hin. rewrite <- Hvids in Hin.
      apply list_elem_of_fmap in Hin as (doc & Hdoc & Hin).
      exists doc. split; [|done]. by eapply elem_of_sublist.
    - by apply (rewrite_corpus_seen _ _ _ _ _ k Hpass). }
  unfold missing_entries. rewrite list_elem_of_fmap. split.
  - intros ([k se'] & -> & [Hk Hin]%list_elem_of_filter).
    apply elem_of_map_to_list in Hin. simpl in *. exists k. split; [done|].
    intros doc Hdoc Hv. apply Hk, elem_of_list_to_set, Hids; [done|].
    by exists doc.
  - intros (k & Hk & Hnone). exists (k, se). split; [done|].
    apply list_elem_of_filter. split; [|by apply elem_of_map_to_list].
    simpl. intros (doc & Hdoc & Hv)%elem_of_list_to_set%Hids; [|done].
    by eapply Hnone.
Qed.

(** X3. A record without [version_id] anywhere in the corpus stops the
    pass with [KeyError], whatever comes before or after it; the corpus file
    is then not replaced, so no run ends. *)
Theorem create_fails_without_version_id scrapers
  (index_files : gmap string (list (index_line Request))) corpus doc :
  doc ∈ corpus → doc !! "version_id" = None →
  (∀ entries st, rewrite_corpus entries scrapers corpus st = None)
  ∧ ∀ final, ¬ create scrapers index_files corpus final.
Proof.
  intros Hin Hdoc.
  assert (∀ entries st, rewrite_corpus entries scrapers corpus st = None)
    as Hfail.
  { intros entries. induction corpus as [|doc' corpus IH]; intros st.
    { by apply elem_of_nil in Hin. }
    simpl. apply elem_of_cons in Hin as [<-|Hin].
    - unfold stream_step, keep, and_then. by rewrite Hdoc.
    - destruct (stream_step entries scrapers st doc'); [simpl|done].
      by apply IH. }
  split; [done|]. intros final Hrun.
  destruct Hrun as [indices st _ Hpass _|indices st completed _ Hpass _ _];
    by rewrite Hfail in Hpass.
Qed.

(** A pass over records that an earlier pass would all write writes them
    all. *)
Lemma rewrite_corpus_all entries scrapers kept new_ids st :
  (.!! "version_id") <$> kept = Some <$> new_ids →
  NoDup new_ids →
  (∀ v, v ∈ new_ids → v ∉ corpus_version_ids st) →
  Forall (retained entries scrapers) kept →
  rewrite_corpus entries scrapers kept st
  = Some (Pass (tmp_file st ++ kept) (corpus_version_ids st ++ new_ids)).
Proof.
  revert new_ids st.
  induction kept as [|doc kept IH]; intros new_ids st Hvids Hnodup Hnew Hret.
  { destruct new_ids; [|done]. simpl. rewrite !app_nil_r. by destruct st. }
  destruct new_ids as [|v new_ids]; [done|].
  rewrite !fmap_cons in Hvids. injection Hvids as Hv Hvids.
  apply NoDup_cons in Hnodup as [Hv_new Hnodup].
  apply Forall_cons in Hret as [(v' & Hv' & Hdoc) Hret].
  assert (v' = v) as -> by congruence.
  assert (stream_step entries scrapers st doc
          = Some (Pass (tmp_file st ++ [doc]) (corpus_version_ids st ++ [v])))
    as Hstep.
  { unfold stream_step, write, keep, and_then, or_else. rewrite Hv. simpl.
    rewrite bool_decide_eq_true_2 by (apply Hnew; constructor). simpl.
    destruct Hdoc as [Hkey|(s & Hs & Hout)].
    - by rewrite bool_decide_eq_true_2 by done.
    - case_bool_decide; simpl; [done|].
      rewrite Hs. simpl. by rewrite bool_decide_eq_true_2 by done. }
  simpl. rewrite Hstep. simpl. rewrite (IH new_ids); try done.
  - simpl. by rewrite <- !app_assoc.
  - simpl. intros v0 Hv0 [Hold|Hv0']%elem_of_app.
    + by apply (Hnew v0); [right|].
    + apply list_elem_of_singleton in Hv0' as ->. done.
Qed.

(** X4. The pass is idempotent: over the file it has written, with the
    same [entries] and [scrapers], it writes every record again and ends in
    the same state. *)
Theorem rewrite_corpus_idempotent entries scrapers corpus st :
  rewrite_corpus entries scrapers corpus (Pass [] []) = Some st →
  rewrite_corpus entries scrapers (tmp_file st) (Pass [] []) = Some st.
Proof.
  intros (kept & new_ids & Htmp & Hids & Hvids & _ & Hret & Hnodup
          & _)%rewrite_corpus_kept.
  simpl in *. subst.
  rewrite (rewrite_corpus_all entries scrapers (tmp_file st)
             (corpus_version_ids st) (Pass [] [])); try done.
  - by destruct st.
  - by intros v _ ?%elem_of_nil.
Qed.

End pass.

(** ** A second run *)

Section second_run.
Import Py Creator.
Context {Request : Type} `{Countable Request}.

Implicit Types (scrapers : gmap string (Scraper Request)).
Implicit Types (index_files : gmap string (list (index_line Request))).
Implicit Types (corpus final : list Doc).

(** The two rules of [create] in one. *)
Lemma create_inv scrapers index_files corpus final :
  create scrapers index_files corpus final ↔
  ∃ indices st completed,
    load_indices scrapers index_files = Some indices
    ∧ rewrite_corpus (flatten indices) scrapers corpus (Pass [] [])
      = Some st
    ∧ completed ≡ₚ missing_entries (flatten indices)
                     (list_to_set (corpus_version_ids st))
    ∧ final = append_docs (tmp_file st) completed.
Proof.
  split.
  - intros [indices st Hload Hpass Hmiss
           |indices st completed Hload Hpass Hmiss Hperm].
    + exists indices, st, []. by rewrite Hmiss.
    + by exists indices, st, completed.
  - intros (indices & st & completed & Hload & Hpass & Hperm & ->).
    destruct (missing_entries (flatten indices)
                (list_to_set (corpus_version_ids st))) as [|se l] eqn:Hmiss.
    + apply Permutation_nil_r in Hperm as ->. by eapply create_up_to_date.
    + eapply create_updated; [done|done| |]; by rewrite Hmiss.
Qed.

(** X5. A second run finds the corpus up to date: when every [get_doc]
    returns a document with the version id of its entry, the corpus that a
    run leaves is left exactly as it is by a run that follows with the same
    index files. *)
Theorem create_idempotent scrapers index_files corpus final :
  (∀ name scraper entry,
     scrapers !! name = Some scraper →
     ∃ doc, get_doc scraper entry = Some doc
            ∧ doc_version_id doc = version_id entry) →
  create scrapers index_files corpus final →
  ∀ final', create scrapers index_files final final' ↔ final' = final.
Proof.
  intros Hdoc (indices & st & completed & Hload & Hpass & Hperm & ->)
    %create_inv.
  set (entries := flatten indices) in *.
  set (missing := missing_entries entries
                    (list_to_set (corpus_version_ids st))) in *.
  destruct (rewrite_corpus_kept _ _ _ _ _ Hpass)
    as (kept & ids & Htmp & Hids & Hvids & _ & Hret & Hnodup & _).
  simpl in Htmp, Hids. subst kept ids.
  assert (∀ se, se ∈ completed →
                ∃ doc, get_doc se.1 se.2 = Some doc
                       ∧ doc_version_id doc = version_id se.2
                       ∧ entries !! version_id se.2 = Some se
                       ∧ version_id se.2 ∉ corpus_version_ids st) as Hse.
  { intros se Hin. rewrite Hperm in Hin.
    apply missing_entries_elem in Hin as (k & Hk & Hnew).
    destruct (flatten_lookup _ _ _ Hk) as [<- Hfound%discovered_scraper].
    destruct (load_indices_scrapers _ _ _ _ Hload Hfound) as [name Hname].
    destruct (Hdoc name se.1 se.2 Hname) as (doc & Hget & Hv).
    exists doc. split_and!; try done.
    by rewrite elem_of_list_to_set in Hnew. }
  set (new := (λ se, version_id se.2) <$> completed).
  assert (append_docs (tmp_file st) completed
          = tmp_file st ++ omap (λ se, asdict <$> get_doc se.1 se.2)
                                completed) as Hfinal
    by apply append_docs_app.
  assert ((.!! "version_id")
            <$> omap (λ se, asdict <$> get_doc se.1 se.2) completed
          = Some <$> new
          ∧ Forall (retained entries scrapers)
              (omap (λ se, asdict <$> get_doc se.1 se.2) completed))
    as [Hnew_ids Hnew_ret].
  { unfold new. clear Hfinal Hperm. induction completed as [|se l IH];
      [by split; [|constructor]|].
    destruct (Hse se) as (doc & Hget & Hv & Hk & _); [by left|].
    destruct IH as [IH1 IH2].
    { intros se' ?. apply Hse. by right. }
    csimpl. rewrite Hget. csimpl.
    rewrite IH1, asdict_version_id, Hv. split; [done|].
    constructor; [|done]. exists (version_id se.2).
    rewrite asdict_version_id, Hv. split; [done|]. left.
    apply elem_of_dom. by exists se. }
  assert (NoDup new) as Hnew_nodup.
  { unfold new. rewrite Hperm. apply missing_entries_NoDup.
    intros k se Hk. by apply flatten_lookup in Hk as [? _]. }
  assert (rewrite_corpus entries scrapers
            (append_docs (tmp_file st) completed) (Pass [] [])
          = Some (Pass (append_docs (tmp_file st) completed)
                       (corpus_version_ids st ++ new))) as Hpass2.
  { rewrite (rewrite_corpus_all entries scrapers _
               (corpus_version_ids st ++ new) (Pass [] [])).
    - done.
    - by rewrite Hfinal, !fmap_app, Hvids, Hnew_ids.
    - apply NoDup_app. split_and!; [done| |done].
      intros v Hold (se & -> & Hin)%list_elem_of_fmap.
      by destruct (Hse se Hin) as (_ & _ & _ & _ & ?).
    - by intros v _ ?%elem_of_nil.
    - rewrite Hfinal. by apply Forall_app. }
  assert (missing_entries entries
            (list_to_set (corpus_version_ids st ++ new)) = []) as Hmiss2.
  { apply elem_of_nil_inv.
    intros se (k & Hk & Hnone)%missing_entries_elem.
    apply Hnone, elem_of_list_to_set, elem_of_app.
    destruct (decide (k ∈ corpus_version_ids st)) as [?|Hnew]; [by left|].
    right. destruct (flatten_lookup _ _ _ Hk) as [<- _].
    apply list_elem_of_fmap. exists se. split; [done|]. rewrite Hperm.
    unfold missing, missing_entries. apply list_elem_of_fmap.
    exists (version_id se.2, se). split; [done|].
    apply list_elem_of_filter. split; [|by apply elem_of_map_to_list].
    simpl. by rewrite elem_of_list_to_set. }
  intros final'. rewrite create_inv. split.
  - intros (indices' & st' & completed' & Hload' & Hpass' & Hperm' & ->).
    assert (indices' = indices) as -> by congruence.
    fold entries in Hpass', Hperm'. rewrite Hpass2 in Hpass'.
    injection Hpass' as <-. simpl in Hperm'. rewrite Hmiss2 in Hperm'.
    by apply Permutation_nil_r in Hperm' as ->.
  - intros ->. exists indices, (Pass (append_docs (tmp_file st) completed)
                                      (corpus_version_ids st ++ new)), [].
    simpl. fold entries. by rewrite Hmiss2.
Qed.

(** X6. The keys of [entries] are the version ids found in the indices,
    and under each key sits the pair found last with it. *)
Theorem flatten_last_wins
  (indices : list (Scraper Request * list (index_line Request))) :
  (∀ v, v ∈ dom (flatten indices)
        ↔ ∃ se, se ∈ discovered indices ∧ version_id se.2 = v)
  ∧ ∀ before se after,
      discovered indices = before ++ se :: after →
      (∀ se', se' ∈ after → version_id se'.2 ≠ version_id se.2) →
      flatten indices !! version_id se.2 = Some se.
Proof.
  unfold flatten. generalize (discovered indices). intros l.
  assert (∀ (l : list (Scraper Request * Entry Request))
            (m : gmap string (Scraper Request * Entry Request)) k,
    (∀ se, se ∈ l → version_id se.2 ≠ k) →
    foldl (λ entries se, <[version_id se.2 := se]> entries) m l !! k
    = m !! k) as Hskip.
  { clear l. intros l. induction l as [|x l IH]; intros m k Hk; [done|].
    simpl. rewrite IH by (intros se ?; apply Hk; by right).
    apply lookup_insert_ne. apply Hk. by left. }
  split.
  - intros v. rewrite elem_of_dom. split.
    + intros [se [Hempty|[? ?]]%foldl_insert_lookup]; [|by exists se].
      by rewrite lookup_empty in Hempty.
    + intros (se & Hin & <-).
      assert (∀ (l : list (Scraper Request * Entry Request))
                (m : gmap string (Scraper Request * Entry Request)) k,
        is_Some (m !! k) ∨ (∃ se, se ∈ l ∧ version_id se.2 = k) →
        is_Some (foldl (λ entries se, <[version_id se.2 := se]> entries)
                       m l !! k)) as Hsome.
      { clear. intros l. induction l as [|x l IH]; intros m k.
        - by intros [?|(se & ?%elem_of_nil & _)].
        - simpl. intros [Hm|(se & [->|Hin]%elem_of_cons & Hse)]; apply IH.
          + left. apply lookup_insert_is_Some'. by right.
          + left. apply lookup_insert_is_Some'. by left.
          + right. by exists se. }
      apply Hsome. right. by exists se.
  - intros before se after -> Hlast. rewrite foldl_app. simpl.
    rewrite Hskip by done. apply lookup_insert_eq.
Qed.

End second_run.

(** ** The index files between two calls *)

Section index_files_again.
Import Py Creator.
Context {Request : Type} `{Countable Request}.

Implicit Types (scraper : Scraper Request).
Implicit Types (index_reqs : gset Request).
Implicit Types (loaded : list (index_line Request)).

Lemma still_indexed_sublist interval now index_reqs loaded :
  still_indexed interval now index_reqs loaded `sublist_of` loaded.
Proof. apply sublist_filter. Qed.

(** What [_get_unindexed_index_reqs] returns and leaves, in every case. *)
Lemma get_unindexed_index_reqs_cases now scraper index_reqs file :
  let interval := index_refresh_interval scraper in
  _get_unindexed_index_reqs now scraper index_reqs file
  = match file with
    | None => (index_reqs, None, [])
    | Some loaded =>
        if decide (interval = Always)
        then (index_reqs, None, [Unlinked])
        else
          let index := still_indexed interval now index_reqs loaded in
          (index_reqs ∖ list_to_set (line_req <$> index), Some index,
           if decide (length index ≠ length loaded)
           then [Saved index] else [])
    end.
Proof.
  intros interval. destruct file as [loaded|]; [|done].
  case_decide as Hint.
  - unfold _get_unindexed_index_reqs. fold interval. by rewrite Hint.
  - by apply get_unindexed_index_reqs_filtering.
Qed.

(** X7. [_get_unindexed_index_reqs] splits the discovery requests in two:
    those it returns and those carried by a line of the index file it
    leaves. The lines it leaves are lines that were there, in their order,
    and each carries a discovery request. *)
Theorem get_unindexed_index_reqs_partition now scraper index_reqs file :
  let '(unindexed, file', _) :=
    _get_unindexed_index_reqs now scraper index_reqs file in
  let left_reqs : gset Request :=
    list_to_set (line_req <$> default [] file') in
  unindexed ∪ left_reqs = index_reqs
  ∧ unindexed ## left_reqs
  ∧ default [] file' `sublist_of` default [] file.
Proof.
  rewrite get_unindexed_index_reqs_cases.
  destruct file as [loaded|]; [case_decide|]; simpl.
  - split_and!; [|apply disjoint_empty_r|apply sublist_nil_l].
    by rewrite (right_id_L ∅ (∪)).
  - split_and!; [|apply disjoint_difference_l1; reflexivity
                 |apply still_indexed_sublist].
    apply set_eq. intros req. rewrite elem_of_union, elem_of_difference.
    split; [|destruct (decide (req ∈ (list_to_set (line_req <$>
               still_indexed (index_refresh_interval scraper) now index_reqs
                 loaded) : gset Request))); tauto].
    intros [[? _]|Hin]; [done|].
    apply elem_of_list_to_set, list_elem_of_fmap in Hin as (l & -> & Hl).
    by apply still_indexed_elem in Hl as (_ & ? & _).
  - split_and!; [|apply disjoint_empty_r|done].
    by rewrite (right_id_L ∅ (∪)).
Qed.

(** X8. Called again on the file it has left, at a time at which the lines
    it kept are still within the interval, [_get_unindexed_index_reqs]
    returns the same requests and does nothing to the file. *)
Theorem get_unindexed_index_reqs_again now now' scraper index_reqs file
  unindexed file' trace :
  _get_unindexed_index_reqs now scraper index_reqs file
    = (unindexed, file', trace) →
  (∀ l, l ∈ default [] file' →
        fresh (index_refresh_interval scraper) now' l = true) →
  _get_unindexed_index_reqs now' scraper index_reqs file'
  = (unindexed, file', []).
Proof.
  rewrite !get_unindexed_index_reqs_cases.
  destruct file as [loaded|]; [case_decide as Hint|]; simpl.
  - by intros [= <- <- <-] _.
  - intros [= <- <- <-] Hfresh. simpl in *.
    assert (still_indexed (index_refresh_interval scraper) now' index_reqs
              (still_indexed (index_refresh_interval scraper) now index_reqs
                 loaded)
            = still_indexed (index_refresh_interval scraper) now index_reqs
                loaded) as ->.
    { apply still_indexed_all. intros l Hl. split; [|by apply Hfresh].
      by apply still_indexed_elem in Hl as (_ & ? & _). }
    by rewrite decide_False by (by intros []).
  - by intros [= <- <- <-] _.
Qed.

(** X9. After a call of [_get_index_reqs] that returned a set and left a
    request file, a call at a time at which that file is not older than the
    interval returns the same set, without calling the adapter and without
    writing. *)
Theorem get_index_reqs_again now now' scraper file reqs f' trace :
  _get_index_reqs now scraper file = (Some reqs, Some f', trace) →
  indices_refresh_interval scraper = Never
  ∨ (∃ d, indices_refresh_interval scraper = Duration d
          ∧ (now' - mtime f' ≤ d)%Z) →
  _get_index_reqs now' scraper (Some f') = (Some reqs, Some f', []).
Proof.
  intros Hfirst Hint.
  assert (outdated (indices_refresh_interval scraper) now' f' = false)
    as Hfresh.
  { destruct Hint as [->|(d & -> & Hd)]; [done|]. simpl.
    by apply bool_decide_eq_false_2, Z.nlt_ge. }
  assert (list_to_set (saved_reqs f') = reqs) as Hsaved.
  { revert Hfirst. unfold _get_index_reqs.
    destruct file as [f|];
      [destruct (outdated (indices_refresh_interval scraper) now f)|];
      try (destruct (get_index_reqs scraper) as [reqs0|];
           [|done]; intros [= <- <- _]; apply saved_reqs_reload).
    by intros [= <- <- _]. }
  unfold _get_index_reqs. by rewrite Hfresh, Hsaved.
Qed.

End index_files_again.

(** ** The scrapers of a creator, by source *)

Section selection_again.
Import Py Creator.
Context {Request : Type} `{Countable Request}.

Implicit Types (M : scrapers_module Request).

Lemma foldl_source_keys (l : list (Scraper Request))
  (d0 : gmap string (Scraper Request)) k scraper :
  (∀ k s, d0 !! k = Some s → source s = k) →
  foldl (λ d scraper, <[source scraper := scraper]> d) d0 l !! k
    = Some scraper →
  source scraper = k.
Proof.
  revert d0. induction l as [|x l IH]; intros d0 Hd0; simpl; [by apply Hd0|].
  apply IH. intros k' s [[<- <-]|[_ ?]]%lookup_insert_Some; [done|].
  by apply Hd0.
Qed.

(** X10. Whatever [sources] is, every scraper of a creator sits under its
    own [source] in [self.scrapers], so that no two scrapers of a creator
    have the same source, and none shares its request file or its index
    file with another. *)
Theorem init_scrapers_keys M sources scrapers :
  init_scrapers M sources = Some scrapers →
  (∀ k scraper, scrapers !! k = Some scraper → source scraper = k)
  ∧ NoDup (source <$> (map_to_list scrapers).*2).
Proof.
  unfold init_scrapers. intros Hinit.
  destruct (mapM (instantiate M) _) as [l|]; [simpl in Hinit|done].
  injection Hinit as <-.
  set (made := foldl (λ d scraper, <[source scraper := scraper]> d) ∅ l).
  assert (∀ k scraper, made !! k = Some scraper → source scraper = k)
    as Hkeys.
  { intros k scraper Hk. eapply foldl_source_keys; [|done].
    intros k' s Hempty. by rewrite lookup_empty in Hempty. }
  split; [done|].
  replace (source <$> (map_to_list made).*2) with (map_to_list made).*1;
    [apply NoDup_fst_map_to_list|].
  rewrite <- list_fmap_compose. apply list_fmap_ext.
  intros i [k scraper] Hi. simpl. symmetry. apply Hkeys.
  by apply elem_of_map_to_list, list_elem_of_lookup_2 with i.
Qed.

(** X11. A source name that is no key of [SOURCES] makes the construction
    fail with [KeyError], wherever it stands among the sources. *)
Theorem init_scrapers_unknown_source M xs name :
  truthy xs = true →
  inl name ∈ items xs →
  name ∉ SOURCES_keys M →
  init_scrapers M (Some xs) = None.
Proof.
  intros Htruthy Hin Hname. unfold init_scrapers. rewrite Htruthy.
  rewrite (proj2 (mapM_None (instantiate M) (items xs))); [done|].
  apply Exists_exists. exists (inl name). split; [done|]. simpl.
  apply eq_None_not_Some. by intros ?%SOURCES_keys_lookup.
Qed.

End selection_again.

(** ** The data a creator finds on disk *)

Section data_on_disk.
Import Py Creator.
Context {Request : Type} `{Countable Request}.
Context {Version : Type} `{EqDecision Version}.

Implicit Types (DV : gmap string Version) (d : data Request Version).
Implicit Types (versions : list (string * Version)).

Lemma incompatible_listed DV name version d :
  (∀ n, n ∈ data_names → is_Some (DV !! n)) →
  incompatible DV name version d
  = Some (bool_decide (name ∈ data_names) && bool_decide (DV !! name ≠ Some version)
          && data_exists name d).
Proof.
  intros Hnames. unfold incompatible, and_then. simpl.
  case_bool_decide as Hname; [simpl|done].
  destruct (Hnames name Hname) as [current ->]. simpl.
  assert (bool_decide (version ≠ current)
          = bool_decide (Some current ≠ Some version)) as ->.
  { apply bool_decide_ext. split; intros Hne; congruence. }
  by destruct (bool_decide _).
Qed.

(** One turn of the loop of lines 92 to 99, seen from the datum [n] that
    [get] reads. *)
Lemma delete_step {A} DV name version versions d n
  (get : data Request Version → option A) :
  n ∈ data_names →
  (∀ m d, get (delete_data m d) = if decide (m = n) then None else get d) →
  data_exists n d = bool_decide (is_Some (get d)) →
  (if decide (listed_stale DV versions n) then None
   else get (if bool_decide (name ∈ data_names)
                && bool_decide (DV !! name ≠ Some version)
                && data_exists name d
             then delete_data name d else d))
  = (if decide (listed_stale DV ((name, version) :: versions) n)
     then None else get d).
Proof.
  intros Hn Hdel Hex. unfold listed_stale.
  destruct (decide (Exists _ versions)) as [Hrest|Hrest].
  { by rewrite decide_True by (by apply Exists_cons; right). }
  destruct (decide (name = n ∧ DV !! n ≠ Some version)) as [[-> Hne]|Hnot].
  - rewrite decide_True by (by apply Exists_cons; left).
    rewrite (bool_decide_eq_true_2 _ Hne), (bool_decide_eq_true_2 _ Hn), Hex.
    simpl. case_bool_decide as Hsome; [|by apply eq_None_not_Some].
    rewrite Hdel. by rewrite decide_True.
  - rewrite decide_False by (by intros [?|?]%Exists_cons).
    destruct (_ && _) eqn:Hb; [|done]. rewrite Hdel.
    apply andb_prop in Hb as [[_ Hne%bool_decide_eq_true]%andb_prop _].
    case_decide as Hname; [|done].
    destruct Hnot. split; [done|]. by rewrite <- Hname.
Qed.

(** What the loop of lines 92 to 99 leaves of the three data. *)
Lemma delete_incompatible_fields DV versions d :
  (∀ n, n ∈ data_names → is_Some (DV !! n)) →
  ∃ d', delete_incompatible DV versions d = Some d'
        ∧ versions_data d' = versions_data d
        ∧ corpus_data d'
          = (if decide (listed_stale DV versions "corpus")
             then None else corpus_data d)
        ∧ indices_data d'
          = (if decide (listed_stale DV versions "indices")
             then None else indices_data d)
        ∧ index_data d'
          = (if decide (listed_stale DV versions "index")
             then None else index_data d).
Proof.
  intros Hnames. revert d.
  induction versions as [|[name version] versions IH]; intros d.
  { exists d. unfold listed_stale. split_and!; try done;
      by rewrite decide_False by (by intros ?%Exists_nil). }
  simpl. rewrite incompatible_listed by done. simpl.
  destruct (IH (if bool_decide (name ∈ data_names)
                   && bool_decide (DV !! name ≠ Some version)
                   && data_exists name d
                then delete_data name d else d))
    as (d' & -> & Hv & Hc & Hi & Hx).
  exists d'. split; [done|]. rewrite Hv, Hc, Hi, Hx. clear IH Hv Hc Hi Hx.
  split_and!.
  - destruct (_ && _); [|done]. unfold delete_data. by repeat case_decide.
  - apply (delete_step DV name version versions d "corpus" corpus_data);
      [by apply (bool_decide_unpack _)
      |intros m d0; unfold delete_data; repeat case_decide; try done;
       subst; discriminate
      |done].
  - apply (delete_step DV name version versions d "indices" indices_data);
      [by apply (bool_decide_unpack _)
      |intros m d0; unfold delete_data; repeat case_decide; try done;
       subst; discriminate
      |done].
  - apply (delete_step DV name version versions d "index" index_data);
      [by apply (bool_decide_unpack _)
      |intros m d0; unfold delete_data; repeat case_decide; try done;
       subst; discriminate
      |done].
Qed.

Lemma listed_stale_lookup DV (versions : gmap string Version) n :
  listed_stale DV (map_to_list versions) n
  ↔ ∃ v, versions !! n = Some v ∧ DV !! n ≠ Some v.
Proof.
  unfold listed_stale. rewrite Exists_exists. split.
  - intros ([n' v] & Hin%elem_of_map_to_list & <- & Hne). by exists v.
  - intros (v & Hin & Hne). exists (n, v).
    by rewrite elem_of_map_to_list.
Qed.

(** X12. When [DATA_VERSIONS] names the three data, the construction goes
    through and leaves a corpus file, the two directories and a versions
    file equal to [DATA_VERSIONS]. A datum that [versions.json] lists with
    another version than the current one is empty afterwards; every other
    datum is as it was (empty if it was not there), in particular when there
    is no [versions.json]. *)
Theorem init_data_keeps_compatible DV d :
  (∀ n, n ∈ data_names → is_Some (DV !! n)) →
  let stale n :=
    ∃ (listed : gmap string Version) v,
      versions_data d = Some listed
      ∧ listed !! n = Some v ∧ DV !! n ≠ Some v in
  ∃ d', init_data DV d = Some d'
        ∧ versions_data d' = Some DV
        ∧ (stale "corpus" → corpus_data d' = Some [])
        ∧ (¬ stale "corpus" →
           corpus_data d' = Some (default [] (corpus_data d)))
        ∧ (stale "indices" → indices_data d' = Some ∅)
        ∧ (¬ stale "indices" →
           indices_data d' = Some (default ∅ (indices_data d)))
        ∧ (stale "index" → index_data d' = Some ∅)
        ∧ (¬ stale "index" →
           index_data d' = Some (default ∅ (index_data d))).
Proof.
  intros Hnames stale. unfold init_data.
  destruct (versions_data d) as [listed|] eqn:Hversions.
  - destruct (delete_incompatible_fields DV (map_to_list listed) d Hnames)
      as (d1 & -> & _ & Hc & Hi & Hx).
    assert (∀ n, stale n ↔ listed_stale DV (map_to_list listed) n)
      as Hstale.
    { intros n. rewrite listed_stale_lookup. unfold stale. split.
      - intros (listed' & v & [= <-] & ? & ?). by exists v.
      - intros (v & ? & ?). by exists listed, v. }
    eexists. split; [done|]. simpl. rewrite Hc, Hi, Hx.
    split_and!; try done; rewrite Hstale; intros Hn;
      first [by rewrite (decide_True _ _ Hn)
            |by rewrite (decide_False _ _ Hn)].
  - eexists. split; [done|]. simpl.
    split_and!; try done; by intros (listed & v & [=] & _).
Qed.

Lemma delete_incompatible_current DV versions d :
  (∀ n v, (n, v) ∈ versions → DV !! n = Some v) →
  delete_incompatible DV versions d = Some d.
Proof.
  induction versions as [|[name version] versions IH]; intros Hcur; [done|].
  simpl.
  assert (incompatible DV name version d = Some false) as ->.
  { unfold incompatible, and_then. simpl.
    case_bool_decide; [simpl|done].
    rewrite (Hcur name version) by (by left). simpl.
    by rewrite bool_decide_eq_false_2 by (by intros []). }
  simpl. apply IH. intros n v ?. apply Hcur. by right.
Qed.

(** X13. A creator made after another one, with the same paths, finds
    every version current and deletes nothing: the construction leaves the
    data as the first construction left them. *)
Theorem init_data_idempotent DV d d' :
  init_data DV d = Some d' → init_data DV d' = Some d'.
Proof.
  unfold init_data.
  destruct (match versions_data d with
            | Some versions => _
            | None => _
            end) as [d1|]; [simpl|done].
  intros [= <-]. simpl.
  rewrite delete_incompatible_current; [done|].
  by intros n v ?%elem_of_map_to_list.
Qed.

End data_on_disk.

(** ** The indexing phase *)

Section indexing.
Import Py Creator.
Context {Request : Type} `{Countable Request}.

Implicit Types (scraper : Scraper Request) (reqs : gset Request).
Implicit Types (calls : list (Z * Scraper Request * gset Request)).
Implicit Types (files : gmap string (list (index_line Request))).
Implicit Types (completed : list (Z * Scraper Request * Request)).

Lemma filter_fmap_comm {A B} (f : A → B) (P : B → Prop)
  `{!∀ y, Decision (P y)} (l : list A) :
  filter P (f <$> l) = f <$> filter (P ∘ f) l.
Proof.
  induction l as [|x l IH]; [done|]. csimpl. rewrite !filter_cons. simpl.
  case_decide; csimpl; by rewrite IH.
Qed.

Lemma filter_all {A} (P : A → Prop) `{!∀ x, Decision (P x)} (l : list A) :
  Forall P l → filter P l = l.
Proof.
  induction 1 as [|x l Hx _ IH]; [done|].
  by rewrite filter_cons, decide_True, IH.
Qed.

Lemma filter_none {A} (P : A → Prop) `{!∀ x, Decision (P x)} (l : list A) :
  Forall (λ x, ¬ P x) l → filter P l = [].
Proof.
  induction 1 as [|x l Hx _ IH]; [done|].
  by rewrite filter_cons, decide_False, IH.
Qed.

(** With one call for each source, every call of line 198 finds the index
    file of its source as it was before the phase. *)
Lemma unindexed_index_reqs_spec calls files :
  NoDup ((λ c, source c.1.2) <$> calls) →
  (unindexed_index_reqs calls files).1
  = (λ c, (c.1.2,
           (_get_unindexed_index_reqs c.1.1 c.1.2 c.2
              (files !! source c.1.2)).1.1)) <$> calls
  ∧ (∀ c, c ∈ calls →
          (unindexed_index_reqs calls files).2 !! source c.1.2
          = (_get_unindexed_index_reqs c.1.1 c.1.2 c.2
               (files !! source c.1.2)).1.2)
  ∧ ∀ s, s ∉ (λ c, source c.1.2) <$> calls →
         (unindexed_index_reqs calls files).2 !! s = files !! s.
Proof.
  revert files.
  induction calls as [|[[now scraper] reqs] calls IH]; intros files Hnodup.
  { split_and!; [done| |done]. by intros c ?%elem_of_nil. }
  rewrite fmap_cons in Hnodup. apply NoDup_cons in Hnodup as [Hhead Hnodup].
  simpl in Hhead. csimpl.
  destruct (_get_unindexed_index_reqs now scraper reqs
              (files !! source scraper)) as [[unindexed file'] trace] eqn:Hcall.
  destruct (IH (partial_alter (λ _, file') (source scraper) files) Hnodup)
    as (Hrest & Hcalls & Hother).
  destruct (unindexed_index_reqs calls _) as [rest files'] eqn:Hrec.
  csimpl in *.
  assert (∀ c, c ∈ calls →
               partial_alter (λ _, file') (source scraper) files
                 !! source c.1.2
               = files !! source c.1.2) as Hsame.
  { intros c Hc. apply lookup_partial_alter_ne. intros Heq. apply Hhead.
    apply list_elem_of_fmap. by exists c. }
  split_and!.
  - rewrite Hrest. f_equal.
    apply Forall_fmap_ext_1, Forall_forall. intros c Hc.
    by rewrite Hsame.
  - intros c [->|Hc]%elem_of_cons.
    + simpl. rewrite Hother by done.
      by rewrite lookup_partial_alter_eq, Hcall.
    + by rewrite Hcalls, Hsame.
  - intros s [Hne Hs]%not_elem_of_cons. rewrite Hother by done.
    by apply lookup_partial_alter_ne.
Qed.

(** The tasks of one source are the requests to index of its scraper. *)
Lemma index_tasks_source calls (un : Z * Scraper Request * gset Request
                                      → gset Request) c :
  NoDup ((λ c, source c.1.2) <$> calls) →
  c ∈ calls →
  filter (λ t, source t.1 = source c.1.2)
         (index_tasks ((λ c, (c.1.2, un c)) <$> calls))
  = (λ req, (c.1.2, req)) <$> elements (un c).
Proof.
  unfold index_tasks.
  assert (∀ c' : Z * Scraper Request * gset Request,
            elements (un c') ≫= (λ req, [(c'.1.2, req)])
            = (λ req, (c'.1.2, req)) <$> elements (un c')) as Hone.
  { intros c'. induction (elements (un c')) as [|r l IH]; [done|].
    rewrite bind_cons, IH. done. }
  induction calls as [|c' calls IH]; intros Hnodup Hc;
    [by apply elem_of_nil in Hc|].
  rewrite fmap_cons in Hnodup. apply NoDup_cons in Hnodup as [Hhead Hnodup].
  rewrite fmap_cons, bind_cons, filter_app. simpl. rewrite Hone.
  apply elem_of_cons in Hc as [->|Hc].
  - rewrite filter_all, filter_none.
    + by rewrite app_nil_r.
    + apply Forall_forall. intros [sc r] Hin Hsrc. simpl in *. apply Hhead.
      apply list_elem_of_bind in Hin as ([sc' rs] & Hin & Hsc').
      apply list_elem_of_fmap in Hsc' as (c'' & [= -> ->] & Hc'').
      apply list_elem_of_bind in Hin as (r' & Hin & _).
      apply list_elem_of_singleton in Hin as [= -> ->].
      apply list_elem_of_fmap. by exists c''.
    + apply Forall_forall. by intros t (r & -> & _)%list_elem_of_fmap.
  - rewrite IH by done. rewrite filter_none; [done|].
    apply Forall_forall. intros t (r & -> & _)%list_elem_of_fmap. simpl.
    intros Heq. apply Hhead. apply list_elem_of_fmap. by exists c.
Qed.

(** The lines that the loop of lines 219 to 223 appends to the file of one
    source, in the order of completion. *)
Lemma write_index_lines_lookup completed files files' s :
  write_index_lines completed files = Some files' →
  ∃ new,
    Forall2 (λ c l, line_req l = c.2 ∧ when_indexed l = c.1.1
                    ∧ get_index c.1.2 c.2 = Some l.1.2)
            (filter (λ c, source c.1.2 = s) completed) new
    ∧ files' !! s = match new with
                    | [] => files !! s
                    | _ => Some (default [] (files !! s) ++ new)
                    end.
Proof.
  revert files.
  induction completed as [|[[now scraper] req] completed IH]; intros files.
  { intros [= <-]. exists []. split; [constructor|done]. }
  simpl. unfold _get_index.
  destruct (get_index scraper req) as [entries|] eqn:Hget; [simpl|done].
  intros (new & Hnew & Hlook)%IH. rewrite filter_cons. simpl.
  destruct (decide (source scraper = s)) as [<-|Hne].
  - exists ((req, entries, now) :: new). split; [by constructor|].
    rewrite Hlook, lookup_insert_eq. simpl.
    destruct new; [done|]. by rewrite <- app_assoc.
  - exists new. split; [done|]. rewrite Hlook.
    by rewrite lookup_insert_ne by done.
Qed.

(** What [_get_unindexed_index_reqs] returns and the requests of the lines it
    leaves are the two halves of the discovery requests. *)
Lemma get_unindexed_index_reqs_split now scraper reqs file :
  (_get_unindexed_index_reqs now scraper reqs file).1.1
    ∪ list_to_set
        (line_req
           <$> default [] (_get_unindexed_index_reqs now scraper reqs file).1.2)
  = reqs
  ∧ (∀ l, l ∈ default [] (_get_unindexed_index_reqs now scraper reqs file).1.2
          → line_req l
            ∉ (_get_unindexed_index_reqs now scraper reqs file).1.1)
  ∧ default [] (_get_unindexed_index_reqs now scraper reqs file).1.2
    `sublist_of` default [] file
  ∧ ((_get_unindexed_index_reqs now scraper reqs file).1.2 = None
     ↔ file = None ∨ index_refresh_interval scraper = Always).
Proof.
  rewrite get_unindexed_index_reqs_cases.
  destruct file as [loaded|]; [case_decide as Hint|]; simpl.
  - split_and!; [by rewrite (right_id_L ∅ (∪))|by intros l ?%elem_of_nil
                |apply sublist_nil_l|]. split; [by right|done].
  - split_and!; [| |apply still_indexed_sublist
                |by split; [|intros [?|?]]].
    + apply set_eq. intros req. rewrite elem_of_union, elem_of_difference.
      split; [|destruct (decide (req ∈ (list_to_set (line_req <$>
                 still_indexed (index_refresh_interval scraper) now reqs
                   loaded) : gset Request))); tauto].
      intros [[? _]|Hin]; [done|].
      apply elem_of_list_to_set, list_elem_of_fmap in Hin as (l & -> & Hl).
      by apply still_indexed_elem in Hl as (_ & ? & _).
    + intros l Hl [_ Hnot]%elem_of_difference. apply Hnot.
      apply elem_of_list_to_set, list_elem_of_fmap. by exists l.
  - split_and!; [by rewrite (right_id_L ∅ (∪))|by intros l ?%elem_of_nil
                |done|]. split; [by left|done].
Qed.

(** The index file of a source after the phase: what the call of line 198
    left of it, followed by one new line for each request to index. *)
Lemma index_phase_file calls files files' c :
  NoDup ((λ c, source c.1.2) <$> calls) →
  c ∈ calls →
  index_phase calls files files' →
  ∃ new,
    line_req <$> new
      ≡ₚ elements (_get_unindexed_index_reqs c.1.1 c.1.2 c.2
                     (files !! source c.1.2)).1.1
    ∧ (∀ l, l ∈ new → get_index c.1.2 (line_req l) = Some l.1.2)
    ∧ files' !! source c.1.2
      = match new with
        | [] => (_get_unindexed_index_reqs c.1.1 c.1.2 c.2
                   (files !! source c.1.2)).1.2
        | _ => Some (default []
                       (_get_unindexed_index_reqs c.1.1 c.1.2 c.2
                          (files !! source c.1.2)).1.2 ++ new)
        end.
Proof.
  intros Hnodup Hc [completed files'' Hperm Hwrite].
  destruct (unindexed_index_reqs_spec calls files Hnodup)
    as (Hun & Hpruned & _).
  rewrite Hun in Hperm, Hwrite.
  pose proof (index_tasks_source calls
                (λ c, (_get_unindexed_index_reqs c.1.1 c.1.2 c.2
                         (files !! source c.1.2)).1.1) c Hnodup Hc)
    as Htasks.
  cbv beta in Htasks.
  destruct (write_index_lines_lookup _ _ _ (source c.1.2) Hwrite)
    as (new & Hnew & Hlook).
  remember (index_tasks _) as tasks eqn:Htasks_eq in Hperm, Hwrite, Htasks,
    Hlook.
  remember ((_get_unindexed_index_reqs c.1.1 c.1.2 c.2
               (files !! source c.1.2)).1.1) as unindexed eqn:Hunindexed.
  remember (filter (λ c', source c'.1.2 = source c.1.2) completed)
    as cs eqn:Hcs_eq.
  assert ((λ c', (c'.1.2, c'.2)) <$> cs
          ≡ₚ (λ req, (c.1.2, req)) <$> elements unindexed) as Hcs.
  { rewrite <- Htasks, <- Hperm, Hcs_eq.
    by rewrite (filter_fmap_comm (λ c', (c'.1.2, c'.2))
                  (λ t, source t.1 = source c.1.2)). }
  assert (line_req <$> new = (λ c', c'.2) <$> cs) as Hreqs.
  { clear -Hnew. induction Hnew as [|c' l cs' new (Hl & _) _ IH]; [done|].
    csimpl. by rewrite Hl, IH. }
  exists new. split_and!.
  - rewrite Hreqs.
    transitivity (snd <$> ((λ c', (c'.1.2, c'.2)) <$> cs));
      [by rewrite <- list_fmap_compose|].
    rewrite Hcs, <- list_fmap_compose. by rewrite list_fmap_id.
  - intros l Hl. apply list_elem_of_lookup in Hl as [i Hi].
    destruct (Forall2_lookup_r _ _ _ _ _ Hnew Hi)
      as (c' & Hc' & Hreq & _ & Hget).
    rewrite Hreq.
    assert ((c'.1.2, c'.2) ∈ (λ req, (c.1.2, req)) <$> elements unindexed)
      as Hin.
    { rewrite <- Hcs. apply list_elem_of_fmap. exists c'. split; [done|].
      by eapply list_elem_of_lookup_2. }
    apply list_elem_of_fmap in Hin as (req & [= Hsc _] & _).
    by rewrite <- Hsc.
  - rewrite Hlook. unfold open_index_files.
    rewrite lookup_union, (Hpruned c Hc).
    destruct ((_get_unindexed_index_reqs c.1.1 c.1.2 c.2
                 (files !! source c.1.2)).1.2) as [left_lines|] eqn:Hleft.
    { rewrite union_Some_l. done. }
    destruct (gset_to_gmap [] _ !! source c.1.2) as [opened|] eqn:Hopened.
    { apply lookup_gset_to_gmap_Some in Hopened as [Hin <-].
      destruct new as [|l new]; [|done].
      apply elem_of_list_to_set, list_elem_of_fmap in Hin
        as ([sc r] & Hsrc & Hin).
      assert ((sc, r) ∈ filter (λ t, source t.1 = source c.1.2) tasks)
        as Hfilter by (by apply list_elem_of_filter).
      rewrite Htasks, <- Hcs in Hfilter.
      apply list_elem_of_fmap in Hfilter as (c' & _ & Hc').
      apply Forall2_nil_inv_r in Hnew. rewrite Hnew in Hc'.
      by apply elem_of_nil in Hc'. }
    by destruct new.
Qed.

(** A task of line 201 belongs to one of the calls of line 198. *)
Lemma index_tasks_scraper calls (un : Z * Scraper Request * gset Request
                                      → gset Request) t :
  t ∈ index_tasks ((λ c, (c.1.2, un c)) <$> calls) →
  ∃ c, c ∈ calls ∧ t.1 = c.1.2 ∧ t.2 ∈ un c.
Proof.
  unfold index_tasks. intros ([sc reqs] & Ht & Hc)%list_elem_of_bind.
  apply list_elem_of_fmap in Hc as (c & [= -> ->] & Hc).
  apply list_elem_of_bind in Ht as (req & Ht & Hreq).
  apply list_elem_of_singleton in Ht as ->.
  exists c. split_and!; [done|done|]. by apply elem_of_elements.
Qed.

(** The lines of a source's index file after the phase. *)
Lemma index_phase_lines calls files files' c :
  NoDup ((λ c, source c.1.2) <$> calls) →
  c ∈ calls →
  index_phase calls files files' →
  ∃ new,
    line_req <$> new
      ≡ₚ elements (_get_unindexed_index_reqs c.1.1 c.1.2 c.2
                     (files !! source c.1.2)).1.1
    ∧ (∀ l, l ∈ new → get_index c.1.2 (line_req l) = Some l.1.2)
    ∧ default [] (files' !! source c.1.2)
      = default [] (_get_unindexed_index_reqs c.1.1 c.1.2 c.2
                      (files !! source c.1.2)).1.2 ++ new
    ∧ (files' !! source c.1.2 = None
       ↔ new = [] ∧ (_get_unindexed_index_reqs c.1.1 c.1.2 c.2
                       (files !! source c.1.2)).1.2 = None).
Proof.
  intros Hnodup Hc Hphase.
  destruct (index_phase_file _ _ _ _ Hnodup Hc Hphase)
    as (new & Hperm & Hget & Hlook).
  exists new. split_and!; [done|done| |]; rewrite Hlook.
  - destruct new; [by rewrite app_nil_r|done].
  - destruct new; [|by split; [|intros [? _]]].
    split; [by intros ->|by intros [_ ?]].
Qed.

(** X14. After the indexing phase (lines 198 to 223) the requests of the
    lines in a scraper's index file are exactly the discovery requests
    passed on line 198; each line was already in the file before or holds
    what [get_index] returned for its request; and the scraper is left
    without index file exactly when it has no discovery request and had no
    index file, or has refresh interval [True]. *)
Theorem index_phase_covers calls files files' now scraper reqs :
  NoDup ((λ c, source c.1.2) <$> calls) →
  index_phase calls files files' →
  (now, scraper, reqs) ∈ calls →
  list_to_set (line_req <$> default [] (files' !! source scraper)) = reqs
  ∧ (∀ l, l ∈ default [] (files' !! source scraper) →
          l ∈ default [] (files !! source scraper)
          ∨ get_index scraper (line_req l) = Some l.1.2)
  ∧ (files' !! source scraper = None
     ↔ reqs = ∅ ∧ (files !! source scraper = None
                   ∨ index_refresh_interval scraper = Always)).
Proof.
  intros Hnodup Hphase Hc.
  destruct (index_phase_lines _ _ _ _ Hnodup Hc Hphase)
    as (new & Hperm & Hget & Hlines & Hnone).
  destruct (get_unindexed_index_reqs_split now scraper reqs
              (files !! source scraper))
    as (Hunion & _ & Hsub & Hfile).
  simpl in *. split_and!.
  - rewrite Hlines, fmap_app, list_to_set_app_L.
    rewrite (comm_L (∪)). etransitivity; [|exact Hunion]. f_equal.
    apply set_eq. intros req.
    by rewrite elem_of_list_to_set, Hperm, elem_of_elements.
  - intros l. rewrite Hlines, elem_of_app. intros [Hl|Hl].
    + left. by eapply elem_of_sublist.
    + right. by apply Hget.
  - rewrite Hnone, <- Hfile. split.
    + intros [-> Hleft]. split; [|done]. rewrite <- Hunion, Hleft. simpl.
      apply Permutation_nil in Hperm. apply elements_empty_inv in Hperm.
      apply leibniz_equiv in Hperm. rewrite Hperm.
      by rewrite (right_id_L ∅ (∪)).
    + intros [-> Hleft]. split; [|done].
      assert ((_get_unindexed_index_reqs now scraper ∅
                 (files !! source scraper)).1.1 = ∅) as Hempty.
      { apply (anti_symm (⊆)); [|apply empty_subseteq].
        rewrite <- Hunion at 2. apply union_subseteq_l. }
      rewrite Hempty, elements_empty in Hperm.
      apply Permutation_nil_r in Hperm. by destruct new.
Qed.

(** X15. The indexing phase never gives a request a second line: if no two
    lines of a scraper's index file carried the same request before, no two
    do afterwards. *)
Theorem index_phase_one_line_per_request calls files files' now scraper
  reqs :
  NoDup ((λ c, source c.1.2) <$> calls) →
  index_phase calls files files' →
  (now, scraper, reqs) ∈ calls →
  NoDup (line_req <$> default [] (files !! source scraper)) →
  NoDup (line_req <$> default [] (files' !! source scraper)).
Proof.
  intros Hnodup Hphase Hc Hbefore.
  destruct (index_phase_lines _ _ _ _ Hnodup Hc Hphase)
    as (new & Hperm & _ & Hlines & _).
  destruct (get_unindexed_index_reqs_split now scraper reqs
              (files !! source scraper))
    as (_ & Hdisjoint & Hsub & _).
  simpl in *. rewrite Hlines, fmap_app. apply NoDup_app. split_and!.
  - eapply sublist_NoDup; [exact Hbefore|by apply fmap_sublist].
  - intros req (l & -> & Hl)%list_elem_of_fmap.
    rewrite Hperm, elem_of_elements. by apply Hdisjoint.
  - rewrite Hperm. apply NoDup_elements.
Qed.

(** X16. The indexing phase touches no index file but those of the
    scrapers it is run for. *)
Theorem index_phase_frame calls files files' name :
  NoDup ((λ c, source c.1.2) <$> calls) →
  index_phase calls files files' →
  name ∉ (λ c, source c.1.2) <$> calls →
  files' !! name = files !! name.
Proof.
  intros Hnodup [completed files'' Hperm Hwrite] Hname.
  destruct (unindexed_index_reqs_spec calls files Hnodup)
    as (Hun & _ & Hpruned).
  rewrite Hun in Hperm, Hwrite.
  assert (∀ t, t ∈ index_tasks
                     ((λ c, (c.1.2,
                             (_get_unindexed_index_reqs c.1.1 c.1.2 c.2
                                (files !! source c.1.2)).1.1)) <$> calls) →
               source t.1 ≠ name) as Htasks.
  { intros t (c & Hc & Ht & _)%index_tasks_scraper <-. apply Hname.
    apply list_elem_of_fmap. exists c. by rewrite Ht. }
  destruct (write_index_lines_lookup _ _ _ name Hwrite)
    as (new & Hnew & ->).
  rewrite filter_none in Hnew.
  - apply Forall2_nil_inv_l in Hnew as ->. unfold open_index_files.
    rewrite lookup_union, (Hpruned name Hname).
    rewrite (proj2 (lookup_gset_to_gmap_None _ _ _)).
    + by destruct (files !! name).
    + intros (t & Hsrc & Ht)%elem_of_list_to_set%list_elem_of_fmap.
      by apply (Htasks t Ht).
  - apply Forall_forall. intros c' Hc'. apply (Htasks (c'.1.2, c'.2)).
    rewrite <- Hperm. apply list_elem_of_fmap. by exists c'.
Qed.

(** X17. A scraper with no discovery request that had no index file, or
    has refresh interval [True], has no index file when the phase is over,
    so that loading the indices on line 226 raises and no run of the rest of
    [create] exists. *)
Theorem index_phase_no_requests calls files files' scrapers now scraper
  name :
  NoDup ((λ c, source c.1.2) <$> calls) →
  index_phase calls files files' →
  (now, scraper, ∅) ∈ calls →
  files !! source scraper = None
  ∨ index_refresh_interval scraper = Always →
  scrapers !! name = Some scraper →
  load_indices scrapers files' = None
  ∧ ∀ corpus final, ¬ create scrapers files' corpus final.
Proof.
  intros Hnodup Hphase Hc Hfile Hscraper.
  destruct (index_phase_lines _ _ _ _ Hnodup Hc Hphase)
    as (new & Hperm & _ & _ & Hnone).
  destruct (get_unindexed_index_reqs_split now scraper ∅
              (files !! source scraper))
    as (Hunion & _ & _ & Hleft).
  simpl in *.
  assert (files' !! source scraper = None) as Hlook.
  { apply Hnone. split; [|by apply Hleft].
    assert ((_get_unindexed_index_reqs now scraper ∅
               (files !! source scraper)).1.1 = ∅) as Hempty.
    { apply (anti_symm (⊆)); [|apply empty_subseteq].
      rewrite <- Hunion at 2. apply union_subseteq_l. }
    rewrite Hempty, elements_empty in Hperm.
    apply Permutation_nil_r in Hperm. by destruct new. }
  assert (load_indices scrapers files' = None) as Hload.
  { unfold load_indices. apply mapM_None, Exists_exists.
    exists scraper. split; [|by rewrite Hlook].
    apply list_elem_of_fmap. exists (name, scraper). split; [done|].
    by apply elem_of_map_to_list. }
  split; [done|]. intros corpus final Hrun.
  destruct Hrun as [indices ? Hindices|indices ? ? Hindices]; congruence.
Qed.

End indexing.

(** ** From the indexing phase to the corpus *)

Section whole_run.
Import Py Creator.
Context {Request : Type} `{Countable Request}.

Implicit Types (scrapers : gmap string (Scraper Request)).
Implicit Types (calls : list (Z * Scraper Request * gset Request)).
Implicit Types (files : gmap string (list (index_line Request))).

Lemma index_phase_line_req calls files files' now scraper reqs l :
  NoDup ((λ c, source c.1.2) <$> calls) →
  index_phase calls files files' →
  (now, scraper, reqs) ∈ calls →
  l ∈ default [] (files' !! source scraper) →
  line_req l ∈ reqs.
Proof.
  intros Hnodup Hphase Hc Hl.
  destruct (index_phase_lines _ _ _ _ Hnodup Hc Hphase)
    as (new & Hperm & _ & Hlines & _).
  destruct (get_unindexed_index_reqs_split now scraper reqs
              (files !! source scraper)) as (Hunion & _).
  simpl in *. rewrite <- Hunion, elem_of_union.
  rewrite Hlines, elem_of_app in Hl. destruct Hl as [Hl|Hl].
  - right. apply elem_of_list_to_set, list_elem_of_fmap. by exists l.
  - left. apply elem_of_elements. rewrite <- Hperm.
    apply list_elem_of_fmap. by exists l.
Qed.

Lemma load_indices_elem scrapers files indices scraper index :
  load_indices scrapers files = Some indices →
  (scraper, index) ∈ indices →
  files !! source scraper = Some index
  ∧ ∃ name, scrapers !! name = Some scraper.
Proof.
  unfold load_indices. intros Hload%mapM_Some [i Hi]%list_elem_of_lookup.
  destruct (Forall2_lookup_r _ _ _ _ _ Hload Hi) as (sc & Hsc & Hindex).
  destruct (files !! source sc) as [index'|] eqn:Hfile; [|done].
  injection Hindex as <- <-. split; [done|].
  apply list_elem_of_lookup_2, list_elem_of_fmap in Hsc
    as ([name sc'] & -> & Hin).
  exists name. by apply elem_of_map_to_list.
Qed.

Lemma discovered_elem
  (indices : list (Scraper Request * list (index_line Request))) se :
  se ∈ discovered indices →
  ∃ index l, (se.1, index) ∈ indices ∧ l ∈ index ∧ se.2 ∈ l.1.2.
Proof.
  unfold discovered. rewrite list_elem_of_bind.
  intros ([scraper index] & Hse & Hin).
  apply list_elem_of_bind in Hse as ([[req entries] t] & Hse & Hl).
  apply list_elem_of_bind in Hse
    as (entry & ->%list_elem_of_singleton & Hentry).
  by exists index, (req, entries, t).
Qed.

(** X21. Over a whole run, from line 198 to line 277, every record of the
    corpus afterwards was in the corpus before, or is the document that
    [get_doc] returned for an entry listed in its scraper's index file
    under one of the scraper's discovery requests of this run: what an
    index file held for a request that is no longer discovered adds nothing
    to the corpus. *)
Theorem create_adds_current_entries calls files files' scrapers corpus
  final :
  NoDup ((λ c, source c.1.2) <$> calls) →
  (∀ name scraper, scrapers !! name = Some scraper →
                   ∃ now reqs, (now, scraper, reqs) ∈ calls) →
  index_phase calls files files' →
  create scrapers files' corpus final →
  ∀ doc, doc ∈ final →
    doc ∈ corpus
    ∨ ∃ now scraper reqs l entry document,
        (now, scraper, reqs) ∈ calls
        ∧ l ∈ default [] (files' !! source scraper)
        ∧ line_req l ∈ reqs
        ∧ entry ∈ l.1.2
        ∧ get_doc scraper entry = Some document
        ∧ doc = asdict document.
Proof.
  intros Hnodup Hcalls Hphase Hrun doc Hdoc.
  apply create_inv in Hrun
    as (indices & st & completed & Hload & Hpass & Hperm & ->).
  rewrite append_docs_app, elem_of_app in Hdoc.
  destruct Hdoc as [Hdoc|Hdoc].
  - left.
    destruct (rewrite_corpus_kept _ _ _ _ _ Hpass)
      as (kept & ids & Htmp & _ & _ & Hsub & _).
    rewrite Htmp in Hdoc. by eapply elem_of_sublist.
  - right. apply list_elem_of_omap in Hdoc as ([scraper entry] & Hse & Hget).
    simpl in Hget.
    destruct (get_doc scraper entry) as [document|] eqn:Hdocument; [|done].
    injection Hget as <-.
    rewrite Hperm in Hse.
    apply missing_entries_elem in Hse as (k & Hk & _).
    apply flatten_lookup in Hk as [_ Hse].
    apply discovered_elem in Hse as (index & l & Hindex & Hl & Hentry).
    simpl in *.
    destruct (load_indices_elem _ _ _ _ _ Hload Hindex)
      as (Hfile & name & Hscraper).
    destruct (Hcalls name scraper Hscraper) as (now & reqs & Hc).
    exists now, scraper, reqs, l, entry, document.
    rewrite Hfile. simpl. split_and!; try done.
    eapply index_phase_line_req; [done|done|done|]. by rewrite Hfile.
Qed.

End whole_run.

(** ** The NSW Legislation adapter, from search to document *)

Section nsw_legislation_again.
Import Py NswLegislation.

Implicit Types (w : web) (url : string) (fs : files).

Lemma strip_prefix_app (p s rest : string) :
  strip_prefix p s = Some rest → s = p +:+ rest.
Proof.
  revert s. induction p as [|a p IH]; intros [|b s]; simpl; try done.
  - by intros [= <-].
  - by intros [= <-].
  - destruct (Ascii.eqb a b) eqn:Hab; [|done].
    apply Ascii.eqb_eq in Hab as ->. by intros ->%IH.
Qed.

Lemma span_non_quote_spec (s body rest : string) :
  span_non_quote s = (body, rest) →
  s = body +:+ rest ∧ contains (String quote EmptyString) body = false.
Proof.
  revert body rest. induction s as [|c s IH]; intros body rest; simpl.
  { by intros [= <- <-]. }
  destruct (Ascii.eqb c quote) eqn:Hc; [by intros [= <- <-]|].
  destruct (span_non_quote s) as [body' rest'].
  intros [= <- <-]. destruct (IH _ _ eq_refl) as [-> Hbody].
  split; [done|]. apply Ascii.eqb_neq in Hc.
  cbn [contains String.prefix]. rewrite Hbody.
  by destruct (Ascii.ascii_dec quote c) as [<-|].
Qed.

Lemma match_href_spec (s group rest : string) :
  match_href s = Some (group, rest) →
  html_path group ∧ s = href_view +:+ group +:+ anchor_end +:+ rest.
Proof.
  unfold match_href.
  intros (s1 & H1 & (s2 & H2 & Hgroup)%bind_Some)%bind_Some.
  destruct (span_non_quote s2) as [body rest'] eqn:Hspan.
  destruct (span_non_quote_spec _ _ _ Hspan) as [-> Hbody].
  destruct body as [|c body]; [done|].
  apply bind_Some in Hgroup as (rest'' & H3 & [= <- <-]).
  apply strip_prefix_app in H1 as ->. apply strip_prefix_app in H2 as ->.
  apply strip_prefix_app in H3 as ->.
  split; [by exists (String c body)|].
  reflexivity.
Qed.

Lemma match_anchor_spec (s group rest : string) :
  match_anchor s = Some (group, rest) → html_path group.
Proof.
  unfold match_anchor. intros (s1 & _ & Hmatch)%bind_Some.
  destruct (strip_prefix class_indent s1 ≫= match_href)
    as [found|] eqn:Hclass.
  - injection Hmatch as ->.
    apply bind_Some in Hclass as (s2 & _ & Hclass).
    by apply match_href_spec in Hclass as [? _].
  - by apply match_href_spec in Hmatch as [? _].
Qed.

Lemma findall_from_spec (s : string) (skip : nat) :
  Forall html_path (findall_from s skip).
Proof.
  revert skip. induction s as [|c s IH]; intros skip; [by constructor|].
  cbn [findall_from]. destruct skip as [|skip]; [|apply IH].
  destruct (match_anchor (String c s)) as [[group rest]|] eqn:Hmatch;
    [|apply IH].
  constructor; [by eapply match_anchor_spec|apply IH].
Qed.

(** The URL of the second attempt of [get_document] for a document found
    by [get_search]. *)
Lemma pdf_url_document_url (body : string) :
  pdf_url (document_url ("/html/" +:+ body))
  = "https://www.legislation.nsw.gov.au/view/whole/pdf"
      +:+ replace ("/" +:+ body) "/view/whole/html" "/view/whole/pdf".
Proof. vm_compute. reflexivity. Qed.

Lemma prefix_app (p s : string) : String.prefix p (p +:+ s) = true.
Proof.
  induction p as [|a p IH]; [by destruct s|].
  simpl. by destruct (Ascii.ascii_dec a a).
Qed.

Lemma html_path_pdf_url (path : string) :
  html_path path →
  pdf_url (document_url path) ≠ document_url path
  ∧ String.prefix "https://www.legislation.nsw.gov.au/view/whole/pdf/"
                  (pdf_url (document_url path)) = true.
Proof.
  intros (body & -> & _).
  generalize (pdf_url_document_url body).
  generalize (pdf_url (document_url ("/html/" +:+ body))).
  intros pdf ->. unfold replace.
  change (replace_from "/view/whole/html" "/view/whole/pdf"
            ("/" +:+ body) 0)
    with (if String.prefix "view/whole/html" body
          then "/view/whole/pdf"
                 +:+ replace_from "/view/whole/html" "/view/whole/pdf"
                       body 15
          else "/" +:+ replace_from "/view/whole/html"
                         "/view/whole/pdf" body 0).
  destruct (String.prefix "view/whole/html" body); split; try discriminate.
  - exact (prefix_app
             "https://www.legislation.nsw.gov.au/view/whole/pdf/"
             ("view/whole/pdf"
                +:+ replace_from "/view/whole/html" "/view/whole/pdf"
                      body 15)).
  - exact (prefix_app
             "https://www.legislation.nsw.gov.au/view/whole/pdf/"
             (replace_from "/view/whole/html" "/view/whole/pdf" body 0)).
Qed.

Lemma get_searches_snoc (searches : list string) (search_base : string)
  (bases : list string) :
  filter (λ s : string * string, s.2 ≠ search_base)
         ((λ base, ("nsw_legislation", base))
            <$> filter (λ base, base ∉ searches) bases)
  = (λ base, ("nsw_legislation", base))
      <$> filter (λ base, base ∉ searches ++ [search_base]) bases.
Proof.
  induction bases as [|base bases IH]; [done|].
  rewrite !filter_cons.
  destruct (decide (base ∉ searches)) as [Hnew|Hold].
  - csimpl. rewrite filter_cons, IH. simpl.
    destruct (decide (base ≠ search_base)) as [Hne|Heq].
    + rewrite decide_True; [done|].
      rewrite elem_of_app, list_elem_of_singleton. by intros [?|?].
    + rewrite decide_False; [done|].
      apply dec_stable in Heq as ->. intros Hnot. apply Hnot.
      rewrite elem_of_app, list_elem_of_singleton. by right.
  - rewrite IH. rewrite decide_False; [done|].
    intros Hnot. apply Hold. intros ?. apply Hnot.
    rewrite elem_of_app. by left.
Qed.

(** X18. Once [get_search] has completed for a search base, [get_searches]
    offers what it offered before without that base: the base is never
    offered again, and the other bases are offered as before. *)
Theorem get_search_recorded site today search_base
  (fs fs' : search_files) :
  get_search site today search_base fs = Some fs' →
  get_searches (searches_jsonl fs')
  = filter (λ s, s.2 ≠ search_base) (get_searches (searches_jsonl fs))
  ∧ ("nsw_legislation", search_base) ∉ get_searches (searches_jsonl fs').
Proof.
  unfold get_search. intros (text & _ & [= <-])%bind_Some. simpl.
  assert (get_searches (Some (default [] (searches_jsonl fs)
                                ++ [search_base]))
          = filter (λ s, s.2 ≠ search_base)
                   (get_searches (searches_jsonl fs))) as Heq.
  { unfold get_searches. by rewrite get_searches_snoc. }
  split; [done|]. rewrite Heq. by intros [? _]%list_elem_of_filter.
Qed.

(** X19. Every row that [get_search] appends to the index of documents is
    of source [nsw_legislation], and its URL is
    [https://www.legislation.nsw.gov.au/view/whole] followed by a path
    [/html/...] without double quote. For such a URL the second attempt of
    [get_document] goes to another URL, one that starts with
    [https://www.legislation.nsw.gov.au/view/whole/pdf/]. *)
Theorem get_search_documents site today search_base
  (fs fs' : search_files) :
  get_search site today search_base fs = Some fs' →
  ∃ paths,
    documents_jsonl fs'
    = documents_jsonl fs
        ++ ((λ path, ("nsw_legislation", document_url path)) <$> paths)
    ∧ Forall (λ path,
                html_path path
                ∧ pdf_url (document_url path) ≠ document_url path
                ∧ String.prefix
                    "https://www.legislation.nsw.gov.au/view/whole/pdf/"
                    (pdf_url (document_url path)) = true) paths.
Proof.
  unfold get_search. intros (text & _ & [= <-])%bind_Some. simpl.
  exists (findall text). split; [done|].
  eapply Forall_impl; [apply findall_from_spec|].
  intros path Hpath. split; [done|]. by apply html_path_pdf_url.
Qed.

(** X20. [get_document] returns normally exactly when the last URL it
    tries raises no exception other than the two suppressed ones; that URL
    is the PDF rendering when the call is not recursive and the first
    attempt failed, and the URL itself otherwise. The call then marks that
    URL, and no other, as downloaded (after a fallback the PDF URL, not the
    URL it was asked for) and appends to the corpus the record of that URL
    if its page was parsed, and nothing else. A recursive call requests its
    URL only. *)
Theorem get_document_outcome w url recursive fs :
  let last := if fails w url && negb recursive then pdf_url url else url in
  let result := get_document w url recursive fs in
  (result.1 = Returned ↔ fails w last = false)
  ∧ (fails w last = false →
     downloaded_jsonl result.2
     = downloaded_jsonl fs ++ [("nsw_legislation", last)]
     ∧ corpus_jsonl result.2
       = corpus_jsonl fs ++ match w last with
                            | Parsed citation text =>
                                [document last citation text]
                            | Raises _ => []
                            end)
  ∧ (recursive = true → requested result.2 = requested fs ++ [url]).
Proof.
  assert (∀ url fs,
    ((get_document w url true fs).1 = Returned ↔ fails w url = false)
    ∧ (fails w url = false →
       downloaded_jsonl (get_document w url true fs).2
       = downloaded_jsonl fs ++ [("nsw_legislation", url)]
       ∧ corpus_jsonl (get_document w url true fs).2
         = corpus_jsonl fs ++ match w url with
                              | Parsed citation text =>
                                  [document url citation text]
                              | Raises _ => []
                              end)
    ∧ requested (get_document w url true fs).2 = requested fs ++ [url])
    as Hrec.
  { clear url fs. intros url fs. simp get_document.
    unfold try_block, fails.
    destruct (w url) as [e|citation text]; [destruct (suppressed e)|];
      simpl; rewrite ?app_nil_r; by split_and!. }
  intros last result. subst last result.
  destruct recursive; simpl; rewrite ?andb_true_r, ?andb_false_r.
  { destruct (Hrec url fs) as (? & ? & ?). by split_and!. }
  simp get_document. destruct (fails w url) eqn:Hfail.
  - destruct (try_block_fails w url fs Hfail) as [e ->].
    destruct (Hrec (pdf_url url)
                (Files (corpus_jsonl fs) (downloaded_jsonl fs)
                       (requested fs ++ [url]))) as (? & ? & ?).
    by split_and!.
  - revert Hfail. unfold try_block, fails.
    destruct (w url) as [e|citation text]; [destruct (suppressed e)|];
      simpl; intros Hfail; rewrite ?app_nil_r; try done; by split_and!.
Qed.

End nsw_legislation_again.

(** ** The further properties on the sample runs *)

Section further_samples.
Import Py Examples.

(** *** Reconciliation *)

Lemma rewrite_corpus_retains_witness :
  Creator.rewrite_corpus (Creator.flatten indices) scrapers corpus
    (Creator.Pass [] []) = Some corpus_kept
  ∧ Creator.tmp_file corpus_kept `sublist_of` corpus
  ∧ Forall (Creator.retained (Creator.flatten indices) scrapers)
           (Creator.tmp_file corpus_kept)
  ∧ (.!! "version_id") <$> Creator.tmp_file corpus_kept
    = Some <$> Creator.corpus_version_ids corpus_kept
  ∧ NoDup (Creator.corpus_version_ids corpus_kept).
Proof.
  assert (Creator.rewrite_corpus (Creator.flatten indices) scrapers corpus
            (Creator.Pass [] []) = Some corpus_kept) as Hpass
    by (vm_compute; reflexivity).
  split; [exact Hpass|].
  exact (rewrite_corpus_retains (Creator.flatten indices) scrapers corpus
           corpus_kept Hpass).
Defined.

Lemma missing_entries_not_in_corpus_witness :
  Creator.rewrite_corpus (Creator.flatten indices) scrapers corpus
    (Creator.Pass [] []) = Some corpus_kept
  ∧ ∀ se,
      se ∈ Creator.missing_entries (Creator.flatten indices)
             (list_to_set (Creator.corpus_version_ids corpus_kept))
      ↔ ∃ k, Creator.flatten indices !! k = Some se
             ∧ ∀ doc, doc ∈ corpus → doc !! "version_id" ≠ Some k.
Proof.
  assert (Creator.rewrite_corpus (Creator.flatten indices) scrapers corpus
            (Creator.Pass [] []) = Some corpus_kept) as Hpass
    by (vm_compute; reflexivity).
  split; [exact Hpass|].
  exact (missing_entries_not_in_corpus (Creator.flatten indices) scrapers
           corpus corpus_kept Hpass).
Defined.

Lemma create_fails_without_version_id_witness :
  ({[ "source" := "current" ]} : Doc) ∈ broken_corpus
  ∧ ({[ "source" := "current" ]} : Doc) !! "version_id" = None
  ∧ (∀ entries st,
       Creator.rewrite_corpus entries scrapers broken_corpus st = None)
  ∧ ∀ final, ¬ Creator.create scrapers index_files broken_corpus final.
Proof.
  assert (({[ "source" := "current" ]} : Doc) ∈ broken_corpus) as Hin
    by (apply elem_of_cons; right; apply elem_of_cons; by left).
  assert (({[ "source" := "current" ]} : Doc) !! "version_id" = None)
    as Hnone by (vm_compute; reflexivity).
  split; [exact Hin|]. split; [exact Hnone|].
  exact (create_fails_without_version_id scrapers index_files broken_corpus
           {[ "source" := "current" ]} Hin Hnone).
Defined.

Lemma rewrite_corpus_idempotent_witness :
  Creator.rewrite_corpus (Creator.flatten indices) scrapers corpus
    (Creator.Pass [] []) = Some corpus_kept
  ∧ Creator.rewrite_corpus (Creator.flatten indices) scrapers
      (Creator.tmp_file corpus_kept) (Creator.Pass [] [])
    = Some corpus_kept.
Proof.
  assert (Creator.rewrite_corpus (Creator.flatten indices) scrapers corpus
            (Creator.Pass [] []) = Some corpus_kept) as Hpass
    by (vm_compute; reflexivity).
  split; [exact Hpass|].
  exact (rewrite_corpus_idempotent (Creator.flatten indices) scrapers corpus
           corpus_kept Hpass).
Defined.

(** *** A second run *)

Lemma create_idempotent_witness :
  (∀ name scraper entry,
     scrapers !! name = Some scraper →
     ∃ doc, Creator.get_doc scraper entry = Some doc
            ∧ Creator.doc_version_id doc = Creator.version_id entry)
  ∧ Creator.create scrapers index_files corpus corpus_after
  ∧ ∀ final', Creator.create scrapers index_files corpus_after final'
              ↔ final' = corpus_after.
Proof.
  assert (∀ name scraper entry,
     scrapers !! name = Some scraper →
     ∃ doc, Creator.get_doc scraper entry = Some doc
            ∧ Creator.doc_version_id doc = Creator.version_id entry)
    as Hdoc.
  { unfold scrapers.
    intros name scraper entry [_ <-]%lookup_singleton_Some.
    by eexists. }
  assert (Creator.create scrapers index_files corpus corpus_after) as Hrun.
  { apply (Creator.create_updated scrapers index_files corpus indices
             corpus_kept [(current, entry "v2")]).
    - vm_compute. reflexivity.
    - vm_compute. reflexivity.
    - vm_compute. discriminate.
    - vm_compute. reflexivity. }
  split; [exact Hdoc|]. split; [exact Hrun|].
  exact (create_idempotent scrapers index_files corpus corpus_after Hdoc
           Hrun).
Defined.

(** *** The index files between two calls *)

Lemma get_unindexed_index_reqs_again_witness :
  Creator._get_unindexed_index_reqs 100 current {[ "search" ]}
    (Some [old_line; new_line])
  = (∅, Some [new_line], [Creator.Saved [new_line]])
  ∧ (∀ l, l ∈ default [] (Some [new_line]) →
          Creator.fresh (Creator.index_refresh_interval current) 102 l
          = true)
  ∧ Creator._get_unindexed_index_reqs 102 current {[ "search" ]}
      (Some [new_line])
    = (∅, Some [new_line], []).
Proof.
  assert (Creator._get_unindexed_index_reqs 100 current {[ "search" ]}
            (Some [old_line; new_line])
          = (∅, Some [new_line], [Creator.Saved [new_line]])) as Hfirst
    by (vm_compute; reflexivity).
  assert (∀ l, l ∈ default [] (Some [new_line]) →
               Creator.fresh (Creator.index_refresh_interval current) 102 l
               = true) as Hfresh.
  { intros l Hl. apply list_elem_of_singleton in Hl as ->.
    vm_compute. reflexivity. }
  split; [exact Hfirst|]. split; [exact Hfresh|].
  exact (get_unindexed_index_reqs_again 100 102 current {[ "search" ]}
           (Some [old_line; new_line]) ∅ (Some [new_line])
           [Creator.Saved [new_line]] Hfirst Hfresh).
Defined.

Lemma get_index_reqs_again_witness :
  Creator._get_index_reqs 100 current None
  = (Some {[ "search" ]},
     Some {| Creator.mtime := 100; Creator.saved_reqs := ["search"] |},
     [Creator.AdapterCalled; Creator.Saved ["search"]])
  ∧ (Creator.indices_refresh_interval current = Creator.Never
     ∨ ∃ d, Creator.indices_refresh_interval current = Creator.Duration d
            ∧ (105 - 100 ≤ d)%Z)
  ∧ Creator._get_index_reqs 105 current
      (Some {| Creator.mtime := 100; Creator.saved_reqs := ["search"] |})
    = (Some {[ "search" ]},
       Some {| Creator.mtime := 100; Creator.saved_reqs := ["search"] |},
       []).
Proof.
  assert (Creator._get_index_reqs 100 current None
          = (Some {[ "search" ]},
             Some {| Creator.mtime := 100;
                     Creator.saved_reqs := ["search"] |},
             [Creator.AdapterCalled; Creator.Saved ["search"]])) as Hfirst
    by (vm_compute; reflexivity).
  assert (Creator.indices_refresh_interval current = Creator.Never
          ∨ ∃ d, Creator.indices_refresh_interval current
                 = Creator.Duration d ∧ (105 - 100 ≤ d)%Z) as Hage.
  { right. exists 10%Z. split; [reflexivity|lia]. }
  split; [exact Hfirst|]. split; [exact Hage|].
  exact (get_index_reqs_again 100 105 current None {[ "search" ]}
           {| Creator.mtime := 100; Creator.saved_reqs := ["search"] |}
           [Creator.AdapterCalled; Creator.Saved ["search"]] Hfirst Hage).
Defined.

(** *** The scrapers of a creator, by source *)

Lemma init_scrapers_keys_witness :
  let made : gmap string (Creator.Scraper string) :=
    {[ "nsw_caselaw" := scraper "nsw_caselaw" Creator.Never;
       "tasmanian_legislation" :=
         scraper "tasmanian_legislation" Creator.Never ]} in
  Creator.init_scrapers classes
    (Some (Iterator [inl "nsw_caselaw"; inl "tasmanian_legislation"]))
  = Some made
  ∧ (∀ k sc, made !! k = Some sc → Creator.source sc = k)
  ∧ NoDup (Creator.source <$> (map_to_list made).*2).
Proof.
  intros made.
  assert (Creator.init_scrapers classes
            (Some (Iterator [inl "nsw_caselaw";
                             inl "tasmanian_legislation"]))
          = Some made) as Hinit by (vm_compute; reflexivity).
  split; [exact Hinit|].
  exact (init_scrapers_keys classes _ made Hinit).
Defined.

Lemma init_scrapers_unknown_source_witness :
  let sources : Iterable (string + Creator.Scraper string) :=
    Sized [inl "nsw_caselaw"; inl "high_court_of_australia"] in
  truthy sources = true
  ∧ inl "high_court_of_australia" ∈ items sources
  ∧ ("high_court_of_australia" ∉ Creator.SOURCES_keys classes)
  ∧ Creator.init_scrapers classes (Some sources) = None.
Proof.
  intros sources.
  assert (inl "high_court_of_australia" ∈ items sources) as Hin
    by (apply elem_of_cons; right; apply elem_of_cons; by left).
  assert ("high_court_of_australia" ∉ Creator.SOURCES_keys classes)
    as Hnot by (apply (bool_decide_unpack _); vm_compute; exact I).
  split; [reflexivity|]. split; [exact Hin|]. split; [exact Hnot|].
  exact (init_scrapers_unknown_source classes sources
           "high_court_of_australia" eq_refl Hin Hnot).
Defined.

(** *** The data a creator finds on disk *)

Lemma init_data_keeps_compatible_witness :
  (∀ n, n ∈ (Creator.data_names : gset string) →
        is_Some (data_versions !! n))
  ∧ ∃ d', Creator.init_data data_versions old_data = Some d'
          ∧ Creator.versions_data d' = Some data_versions
          ∧ Creator.corpus_data d' = Some []
          ∧ Creator.index_data d' = Some index_files.
Proof.
  assert (∀ n, n ∈ (Creator.data_names : gset string) →
               is_Some (data_versions !! n)) as Hnames.
  { intros n. unfold Creator.data_names.
    rewrite !elem_of_union, !elem_of_singleton.
    intros [[->| ->]| ->]; by eexists. }
  split; [exact Hnames|].
  destruct (init_data_keeps_compatible data_versions old_data Hnames)
    as (d' & Hinit & Hversions & Hstale & _ & _ & _ & _ & Hindex).
  exists d'. split; [exact Hinit|]. split; [exact Hversions|]. split.
  - apply Hstale. exists {[ "corpus" := 3%nat; "indices" := 2%nat;
                            "index" := 3%nat ]}, 3%nat.
    split; [reflexivity|]. split; [reflexivity|]. vm_compute. discriminate.
  - apply Hindex. intros (listed & v & [= <-] & Hlisted & Hne).
    apply Hne. rewrite <- Hlisted. vm_compute. reflexivity.
Defined.

Lemma init_data_idempotent_witness :
  Creator.init_data data_versions old_data = Some new_data
  ∧ Creator.init_data data_versions new_data = Some new_data.
Proof.
  assert (Creator.init_data data_versions old_data = Some new_data)
    as Hinit by (vm_compute; reflexivity).
  split; [exact Hinit|].
  exact (init_data_idempotent data_versions old_data new_data Hinit).
Defined.

(** *** The indexing phase *)

Lemma index_phase_sample :
  Creator.index_phase calls index_files index_files_after.
Proof.
  apply (Creator.index_phase_run calls index_files
           [(101%Z, current, "recent")] index_files_after).
  - vm_compute. reflexivity.
  - vm_compute. reflexivity.
Qed.

Lemma idle_phase_sample :
  Creator.index_phase idle_calls index_files index_files.
Proof.
  apply (Creator.index_phase_run idle_calls index_files [] index_files).
  - vm_compute. reflexivity.
  - vm_compute. reflexivity.
Qed.

Lemma index_phase_covers_witness :
  NoDup ((λ c, Creator.source c.1.2) <$> calls)
  ∧ Creator.index_phase calls index_files index_files_after
  ∧ (100%Z, current, ({[ "search"; "recent" ]} : gset string)) ∈ calls
  ∧ list_to_set
      (Creator.line_req
         <$> default [] (index_files_after !! Creator.source current))
    = ({[ "search"; "recent" ]} : gset string)
  ∧ (index_files_after !! Creator.source current = None
     ↔ ({[ "search"; "recent" ]} : gset string) = ∅
       ∧ (index_files !! Creator.source current = None
          ∨ Creator.index_refresh_interval current = Creator.Always)).
Proof.
  assert (NoDup ((λ c, Creator.source c.1.2) <$> calls)) as Hnodup
    by apply NoDup_singleton.
  assert ((100%Z, current, ({[ "search"; "recent" ]} : gset string))
          ∈ calls) as Hin by (apply elem_of_cons; by left).
  split; [exact Hnodup|]. split; [exact index_phase_sample|].
  split; [exact Hin|].
  destruct (index_phase_covers calls index_files index_files_after 100
              current {[ "search"; "recent" ]} Hnodup index_phase_sample
              Hin) as (Hreqs & _ & Hnone).
  split; [exact Hreqs|exact Hnone].
Defined.

Lemma index_phase_one_line_per_request_witness :
  NoDup ((λ c, Creator.source c.1.2) <$> calls)
  ∧ Creator.index_phase calls index_files index_files_after
  ∧ (100%Z, current, ({[ "search"; "recent" ]} : gset string)) ∈ calls
  ∧ NoDup (Creator.line_req
             <$> default [] (index_files !! Creator.source current))
  ∧ NoDup (Creator.line_req
             <$> default [] (index_files_after !! Creator.source current)).
Proof.
  assert (NoDup ((λ c, Creator.source c.1.2) <$> calls)) as Hnodup
    by apply NoDup_singleton.
  assert ((100%Z, current, ({[ "search"; "recent" ]} : gset string))
          ∈ calls) as Hin by (apply elem_of_cons; by left).
  assert (NoDup (Creator.line_req
                   <$> default [] (index_files !! Creator.source current)))
    as Hbefore by apply NoDup_singleton.
  split; [exact Hnodup|]. split; [exact index_phase_sample|].
  split; [exact Hin|]. split; [exact Hbefore|].
  exact (index_phase_one_line_per_request calls index_files
           index_files_after 100 current {[ "search"; "recent" ]} Hnodup
           index_phase_sample Hin Hbefore).
Defined.

Lemma index_phase_frame_witness :
  NoDup ((λ c, Creator.source c.1.2) <$> calls)
  ∧ Creator.index_phase calls index_files index_files_after
  ∧ ("legacy" ∉ (λ c, Creator.source c.1.2) <$> calls)
  ∧ index_files_after !! "legacy" = index_files !! "legacy".
Proof.
  assert (NoDup ((λ c, Creator.source c.1.2) <$> calls)) as Hnodup
    by apply NoDup_singleton.
  assert ("legacy" ∉ (λ c, Creator.source c.1.2) <$> calls) as Hnot
    by (apply (bool_decide_unpack _); vm_compute; exact I).
  split; [exact Hnodup|]. split; [exact index_phase_sample|].
  split; [exact Hnot|].
  exact (index_phase_frame calls index_files index_files_after "legacy"
           Hnodup index_phase_sample Hnot).
Defined.

Lemma index_phase_no_requests_witness :
  NoDup ((λ c, Creator.source c.1.2) <$> idle_calls)
  ∧ Creator.index_phase idle_calls index_files index_files
  ∧ (100%Z, idle, (∅ : gset string)) ∈ idle_calls
  ∧ (index_files !! Creator.source idle = None
     ∨ Creator.index_refresh_interval idle = Creator.Always)
  ∧ idle_scrapers !! "idle" = Some idle
  ∧ Creator.load_indices idle_scrapers index_files = None
  ∧ ∀ corpus final,
      ¬ Creator.create idle_scrapers index_files corpus final.
Proof.
  assert (NoDup ((λ c, Creator.source c.1.2) <$> idle_calls)) as Hnodup
    by (apply (bool_decide_unpack _); vm_compute; exact I).
  assert ((100%Z, idle, (∅ : gset string)) ∈ idle_calls) as Hin
    by (apply elem_of_cons; right; apply elem_of_cons; by left).
  assert (index_files !! Creator.source idle = None
          ∨ Creator.index_refresh_interval idle = Creator.Always) as Hfile
    by (left; vm_compute; reflexivity).
  assert (idle_scrapers !! "idle" = Some idle) as Hscraper
    by (vm_compute; reflexivity).
  split; [exact Hnodup|]. split; [exact idle_phase_sample|].
  split; [exact Hin|]. split; [exact Hfile|]. split; [exact Hscraper|].
  exact (index_phase_no_requests idle_calls index_files index_files
           idle_scrapers 100 idle "idle" Hnodup idle_phase_sample Hin Hfile
           Hscraper).
Defined.

(** *** From the indexing phase to the corpus *)

Lemma create_adds_current_entries_witness :
  NoDup ((λ c, Creator.source c.1.2) <$> calls)
  ∧ (∀ name sc, scrapers !! name = Some sc →
                ∃ now reqs, (now, sc, reqs) ∈ calls)
  ∧ Creator.index_phase calls index_files index_files_after
  ∧ Creator.create scrapers index_files_after corpus corpus_after
  ∧ ∀ doc, doc ∈ corpus_after →
      doc ∈ corpus
      ∨ ∃ now sc reqs l e document,
          (now, sc, reqs) ∈ calls
          ∧ l ∈ default [] (index_files_after !! Creator.source sc)
          ∧ Creator.line_req l ∈ reqs
          ∧ e ∈ l.1.2
          ∧ Creator.get_doc sc e = Some document
          ∧ doc = Creator.asdict document.
Proof.
  assert (NoDup ((λ c, Creator.source c.1.2) <$> calls)) as Hnodup
    by apply NoDup_singleton.
  assert (∀ name sc, scrapers !! name = Some sc →
                     ∃ now reqs, (now, sc, reqs) ∈ calls) as Hcalls.
  { unfold scrapers. intros name sc [_ <-]%lookup_singleton_Some.
    exists 100%Z, {[ "search"; "recent" ]}. apply elem_of_cons. by left. }
  assert (Creator.create scrapers index_files_after corpus corpus_after)
    as Hrun.
  { apply (Creator.create_updated scrapers index_files_after corpus
             [(current, [("search", [entry "v1"; entry "v2"], 95%Z);
                         recent_line])]
             corpus_kept [(current, entry "v2")]).
    - vm_compute. reflexivity.
    - vm_compute. reflexivity.
    - vm_compute. discriminate.
    - vm_compute. reflexivity. }
  split; [exact Hnodup|]. split; [exact Hcalls|].
  split; [exact index_phase_sample|]. split; [exact Hrun|].
  exact (create_adds_current_entries calls index_files index_files_after
           scrapers corpus corpus_after Hnodup Hcalls index_phase_sample
           Hrun).
Defined.

(** *** The NSW Legislation adapter, from search to document *)

(** The scan of the sample table finds the two documents, the one with
    [class] and the one without, and neither of the other two links. *)
Example findall_table :
  NswLegislation.findall table
  = [ "/html/inforce/current/act-1900-040";
      "/html/inforce/current/act-2018-033" ].
Proof. vm_compute. reflexivity. Qed.

Lemma get_search_recorded_witness :
  NswLegislation.get_search tables_site "06/11/2026"
    "https://legislation.nsw.gov.au/tables/siif" no_search_files
  = Some (NswLegislation.SearchFiles
            [ ("nsw_legislation",
               "https://www.legislation.nsw.gov.au/view/whole/html/inforce/current/act-1900-040");
              ("nsw_legislation",
               "https://www.legislation.nsw.gov.au/view/whole/html/inforce/current/act-2018-033") ]
            (Some ["https://legislation.nsw.gov.au/tables/siif"]))
  ∧ NswLegislation.get_searches
      (Some ["https://legislation.nsw.gov.au/tables/siif"])
    = filter (λ s, s.2 ≠ "https://legislation.nsw.gov.au/tables/siif")
             (NswLegislation.get_searches None)
  ∧ ("nsw_legislation", "https://legislation.nsw.gov.au/tables/siif")
    ∉ NswLegislation.get_searches
        (Some ["https://legislation.nsw.gov.au/tables/siif"]).
Proof.
  assert (NswLegislation.get_search tables_site "06/11/2026"
            "https://legislation.nsw.gov.au/tables/siif" no_search_files
          = Some (NswLegislation.SearchFiles
                    [ ("nsw_legislation",
                       "https://www.legislation.nsw.gov.au/view/whole/html/inforce/current/act-1900-040");
                      ("nsw_legislation",
                       "https://www.legislation.nsw.gov.au/view/whole/html/inforce/current/act-2018-033") ]
                    (Some ["https://legislation.nsw.gov.au/tables/siif"])))
    as Hsearch by (vm_compute; reflexivity).
  split; [exact Hsearch|].
  exact (get_search_recorded tables_site "06/11/2026"
           "https://legislation.nsw.gov.au/tables/siif" no_search_files _
           Hsearch).
Defined.

Lemma get_search_documents_witness :
  NswLegislation.get_search tables_site "06/11/2026"
    "https://legislation.nsw.gov.au/tables/siif" no_search_files
  = Some (NswLegislation.SearchFiles
            [ ("nsw_legislation",
               "https://www.legislation.nsw.gov.au/view/whole/html/inforce/current/act-1900-040");
              ("nsw_legislation",
               "https://www.legislation.nsw.gov.au/view/whole/html/inforce/current/act-2018-033") ]
            (Some ["https://legislation.nsw.gov.au/tables/siif"]))
  ∧ ∃ paths,
      [ ("nsw_legislation",
         "https://www.legislation.nsw.gov.au/view/whole/html/inforce/current/act-1900-040");
        ("nsw_legislation",
         "https://www.legislation.nsw.gov.au/view/whole/html/inforce/current/act-2018-033") ]
      = [] ++ ((λ path, ("nsw_legislation",
                         NswLegislation.document_url path)) <$> paths)
      ∧ Forall (λ path,
                  NswLegislation.html_path path
                  ∧ NswLegislation.pdf_url
                      (NswLegislation.document_url path)
                    ≠ NswLegislation.document_url path
                  ∧ String.prefix
                      "https://www.legislation.nsw.gov.au/view/whole/pdf/"
                      (NswLegislation.pdf_url
                         (NswLegislation.document_url path)) = true)
               paths.
Proof.
  assert (NswLegislation.get_search tables_site "06/11/2026"
            "https://legislation.nsw.gov.au/tables/siif" no_search_files
          = Some (NswLegislation.SearchFiles
                    [ ("nsw_legislation",
                       "https://www.legislation.nsw.gov.au/view/whole/html/inforce/current/act-1900-040");
                      ("nsw_legislation",
                       "https://www.legislation.nsw.gov.au/view/whole/html/inforce/current/act-2018-033") ]
                    (Some ["https://legislation.nsw.gov.au/tables/siif"])))
    as Hsearch by (vm_compute; reflexivity).
  split; [exact Hsearch|].
  exact (get_search_documents tables_site "06/11/2026"
           "https://legislation.nsw.gov.au/tables/siif" no_search_files _
           Hsearch).
Defined.

(** Two calls of [get_document]: a page that parses at the first attempt,
    and a document that exists as PDF only, which is marked under its PDF
    URL and leaves no record. *)
Example get_document_runs :
  NswLegislation.get_document acts_site act_url false no_files
  = (NswLegislation.Returned,
     NswLegislation.Files
       [NswLegislation.document act_url "Crimes Act 1900"
          "An Act to consolidate the Statutes."]
       [("nsw_legislation", act_url)] [act_url])
  ∧ NswLegislation.get_document pdf_only_site epi_url false no_files
    = (NswLegislation.Returned,
       NswLegislation.Files []
         [("nsw_legislation", NswLegislation.pdf_url epi_url)]
         [epi_url; NswLegislation.pdf_url epi_url]).
Proof. split; vm_compute; reflexivity. Qed.

End further_samples.
